(** * Name resolution of merge_sprinkler_data.py

    A shallow embedding of the name-resolution engine of
    [merge_sprinkler_data.py] ([normalize_name], [similarity_score],
    [find_best_match] and the per-record matching loop of [main]) together
    with the properties of its specification.

    Conventions of the embedding.
    - A Python [str] is a [string]; a character is a code point below 256
      (the Latin-1 range, on which [str.lower] is a character-wise map that
      stays in the range).  The character classes are the ones of CPython 3:
      [str.isspace], [str.strip], [str.split] and the regular expression
      class [\s] all use the same white-space test, and [\w] is
      [str.isalnum] or the underscore.
    - A Python [float] is a binary64 [float] of [PrimFloat]; the comparisons
      [>], [>=] are [PrimFloat.ltb] and [PrimFloat.leb] with their arguments
      swapped.
    - A [dict] with string keys is a [gmap string _], a [set] of strings a
      [gset string]. *)

From Stdlib Require Import ZArith NArith List String Ascii Bool Lia.
From Stdlib Require Import Floats Uint63.
From stdpp Require Import gmap strings.

Set Warnings "-inexact-float,-register-all".
Local Open Scope string_scope.
Local Open Scope list_scope.

(* ===================================================================== *)
(** * Characters *)
(* ===================================================================== *)

Module Char.

Definition code (c : ascii) : N := N_of_ascii c.

Definition between (lo hi : N) (c : ascii) : bool :=
  ((lo <=? code c) && (code c <=? hi))%N.

(** [str.isspace] on one character, which is also the class [\s] and the
    set stripped by [str.strip()]: TAB..CR, FS..US, space, NEL, NBSP. *)
Definition isspace (c : ascii) : bool :=
  between 9 13 c || between 28 32 c || between 133 133 c
  || between 160 160 c.

(** [str.isalnum] on one character of the Latin-1 range. *)
Definition isalnum (c : ascii) : bool :=
  between 48 57 c || between 65 90 c || between 97 122 c
  || between 170 170 c || between 178 179 c || between 181 181 c
  || between 185 186 c || between 188 190 c || between 192 214 c
  || between 216 246 c || between 248 255 c.

(** The regular expression class [\w] of a [str] pattern. *)
Definition isword (c : ascii) : bool :=
  isalnum c || between 95 95 c.

(** [str.lower] on one character: A..Z and the upper-case letters of
    Latin-1 move up by 32, every other character is kept. *)
Definition lower (c : ascii) : ascii :=
  if between 65 90 c || between 192 214 c || between 216 222 c
  then ascii_of_N (code c + 32)
  else c.

Definition space : ascii := " "%char.

End Char.

(* ===================================================================== *)
(** * String operations of Python used by the source *)
(* ===================================================================== *)

(** The operations are written on lists of characters and lifted to
    [string]. *)

Module Chars.

Definition lower (s : list ascii) : list ascii := map Char.lower s.

Fixpoint lstrip (s : list ascii) : list ascii :=
  match s with
  | [] => []
  | c :: s' => if Char.isspace c then lstrip s' else s
  end.

Definition rstrip (s : list ascii) : list ascii := rev (lstrip (rev s)).

(** [s.strip()] *)
Definition strip (s : list ascii) : list ascii := lstrip (rstrip s).

Definition eqb (s t : list ascii) : bool :=
  bool_decide (s = t).

(** [s.endswith(suffix)] *)
Definition endswith (s suffix : list ascii) : bool :=
  (length suffix <=? length s)%nat
  && eqb (skipn (length s - length suffix) s) suffix.

(** [s[:-n]] for [n > 0]: everything but the last [n] characters. *)
Definition slice_to_neg (n : nat) (s : list ascii) : list ascii :=
  firstn (length s - n) s.

(** [re.sub(r'[^\w\s]', ' ', s)] *)
Definition sub_special (s : list ascii) : list ascii :=
  map (fun c => if Char.isword c || Char.isspace c then c else Char.space) s.

(** [re.sub(r'\s+', ' ', s)]: every maximal run of white space becomes
    one space.  [in_run] tells that the previous character was white
    space, whose run has already produced its space. *)
Fixpoint sub_spaces_from (in_run : bool) (s : list ascii) : list ascii :=
  match s with
  | [] => []
  | c :: s' =>
      if Char.isspace c
      then if in_run then sub_spaces_from true s'
           else Char.space :: sub_spaces_from true s'
      else c :: sub_spaces_from false s'
  end.

Definition sub_spaces (s : list ascii) : list ascii :=
  sub_spaces_from false s.

(** [s.split()]: the maximal runs of characters that are not white
    space.  [cur] is the current word, reversed. *)
Fixpoint split_from (cur : list ascii) (s : list ascii)
  : list (list ascii) :=
  match s with
  | [] => match cur with [] => [] | _ => [rev cur] end
  | c :: s' =>
      if Char.isspace c
      then match cur with
           | [] => split_from [] s'
           | _ => rev cur :: split_from [] s'
           end
      else split_from (c :: cur) s'
  end.

Definition split (s : list ascii) : list (list ascii) := split_from [] s.

End Chars.

Module Py.

Definition chars (s : string) : list ascii := list_ascii_of_string s.
Definition str (l : list ascii) : string := string_of_list_ascii l.

Definition lift (f : list ascii -> list ascii) (s : string) : string :=
  str (f (chars s)).

Definition lower : string -> string := lift Chars.lower.
Definition strip : string -> string := lift Chars.strip.
Definition endswith (s suffix : string) : bool :=
  Chars.endswith (chars s) (chars suffix).
Definition slice_to_neg (n : nat) : string -> string :=
  lift (Chars.slice_to_neg n).
Definition sub_special : string -> string := lift Chars.sub_special.
Definition sub_spaces : string -> string := lift Chars.sub_spaces.
Definition split (s : string) : list string :=
  map str (Chars.split (chars s)).

(** [not s] for a [str]. *)
Definition falsy (s : string) : bool := String.eqb s "".

End Py.

(* ===================================================================== *)
(** * normalize_name *)
(* ===================================================================== *)

Definition suffixes_to_remove : list string :=
  [ " playground"; " plgd"; " park playground"; " park";
    " tot lot"; " playgrnd"; " plgrnd" ].

(** The body of the loop [for suffix in suffixes_to_remove]. *)
Definition remove_suffix (normalized suffix : string) : string :=
  if Py.endswith normalized suffix
  then Py.strip (Py.slice_to_neg (String.length suffix) normalized)
  else normalized.

Definition normalize_name (name : string) : string :=
  if Py.falsy name then ""
  else
    let normalized := Py.strip (Py.lower name) in
    let normalized := fold_left remove_suffix suffixes_to_remove normalized in
    let normalized := Py.sub_special normalized in
    let normalized := Py.strip (Py.sub_spaces normalized) in
    normalized.

(* ===================================================================== *)
(** * difflib.SequenceMatcher *)
(* ===================================================================== *)

(** [similarity_score] calls [SequenceMatcher(None, a, b).ratio()] of the
    Python standard library.  The module follows CPython's [difflib.py] for
    [isjunk = None] and [autojunk = True], the arguments of the source.
    Indices are Python integers, hence [Z]. *)

Module difflib.

Definition float_of_int (z : Z) : float := of_uint63 (Uint63.of_Z z).

(** [s[i]], read only at indices within the string. *)
Definition item (s : list ascii) (i : Z) : ascii :=
  nth (Z.to_nat i) s Ascii.zero.

Definition len (s : list ascii) : Z := Z.of_nat (length s).

(** [range(lo, hi)] *)
Definition range (lo hi : Z) : list Z :=
  map (fun n => lo + Z.of_nat n)%Z (seq 0 (Z.to_nat (hi - lo))).

(** [__chain_b]: [b2j] maps every element of [b] to the increasing list
    of its indices; when [b] has 200 elements or more, the elements
    occurring more than [n // 100 + 1] times are deleted from it.  No
    element is junk, because [isjunk] is [None]. *)
Definition record_index (b2j : gmap ascii (list Z)) (ie : Z * ascii)
  : gmap ascii (list Z) :=
  <[ie.2 := default [] (b2j !! ie.2) ++ [ie.1]]> b2j.

Definition enumerate (b : list ascii) : list (Z * ascii) :=
  combine (range 0 (len b)) b.

Definition popular (ntest : Z) (idxs : list Z) : bool :=
  (ntest <? Z.of_nat (length idxs))%Z.

Definition chain_b (b : list ascii) : gmap ascii (list Z) :=
  let b2j := fold_left record_index (enumerate b) ∅ in
  let n := len b in
  if (200 <=? n)%Z
  then let ntest := (n / 100 + 1)%Z in
       filter (fun kv => popular ntest kv.2 = false) b2j
  else b2j.

(** A match [(i, j, k)]: [a[i:i+k] == b[j:j+k]]. *)
Definition Match : Type := Z * Z * Z.

Definition size (m : Match) : Z := m.2.

Section find_longest_match.
Variables (a b : list ascii) (b2j : gmap ascii (list Z)).
Variables (alo ahi blo bhi : Z).

(** The loop [for j in b2j.get(a[i], nothing)]. *)
Fixpoint scan_js (i : Z) (j2len : gmap Z Z) (js : list Z)
    (newj2len : gmap Z Z) (best : Match) : gmap Z Z * Match :=
  match js with
  | [] => (newj2len, best)
  | j :: js' =>
      if (j <? blo)%Z then scan_js i j2len js' newj2len best
      else if (bhi <=? j)%Z then (newj2len, best)
      else
        let k := (default 0 (j2len !! (j - 1)) + 1)%Z in
        let newj2len := <[j := k]> newj2len in
        let best := if (size best <? k)%Z
                    then (i - k + 1, j - k + 1, k)%Z else best in
        scan_js i j2len js' newj2len best
  end.

(** The body of [for i in range(alo, ahi)]. *)
Definition scan_i (st : gmap Z Z * Match) (i : Z) : gmap Z Z * Match :=
  scan_js i st.1 (default [] (b2j !! item a i)) ∅ st.2.

(** [while besti > alo and bestj > blo and a[besti-1] == b[bestj-1]];
    every turn lowers [besti], so [besti - alo] turns are enough. *)
Fixpoint extend_left (fuel : nat) (best : Match) : Match :=
  let '(besti, bestj, bestsize) := best in
  match fuel with
  | O => best
  | S fuel =>
      if (alo <? besti)%Z && (blo <? bestj)%Z
         && bool_decide (item a (besti - 1) = item b (bestj - 1))
      then extend_left fuel (besti - 1, bestj - 1, bestsize + 1)%Z
      else best
  end.

(** [while besti+bestsize < ahi and bestj+bestsize < bhi and
    a[besti+bestsize] == b[bestj+bestsize]]; every turn raises
    [bestsize], so [ahi - (besti+bestsize)] turns are enough. *)
Fixpoint extend_right (fuel : nat) (best : Match) : Match :=
  let '(besti, bestj, bestsize) := best in
  match fuel with
  | O => best
  | S fuel =>
      if (besti + bestsize <? ahi)%Z && (bestj + bestsize <? bhi)%Z
         && bool_decide (item a (besti + bestsize)
                         = item b (bestj + bestsize))
      then extend_right fuel (besti, bestj, bestsize + 1)%Z
      else best
  end.

(** The two last loops of the Python function extend the match by junk
    elements and never run: the junk set is empty. *)
Definition find_longest_match : Match :=
  let best := (fold_left scan_i (range alo ahi) (∅, (alo, blo, 0%Z))).2 in
  let best := extend_left (Z.to_nat (best.1.1 - alo)) best in
  let best :=
    extend_right (Z.to_nat (ahi - (best.1.1 + size best))) best in
  best.

End find_longest_match.

Definition Range : Type := Z * Z * Z * Z.

(** The loop [while queue] of [get_matching_blocks].  The Python list
    [queue] is used as a stack; its last element is the head here.
    [None] stands for running out of [fuel]. *)
Fixpoint blocks_loop (a b : list ascii) (b2j : gmap ascii (list Z))
    (fuel : nat) (queue : list Range) (matching_blocks : list Match)
  : option (list Match) :=
  match queue with
  | [] => Some matching_blocks
  | (alo, ahi, blo, bhi) :: queue =>
      match fuel with
      | O => None
      | S fuel =>
          let x := find_longest_match a b b2j alo ahi blo bhi in
          let '(i, j, k) := x in
          if (k =? 0)%Z
          then blocks_loop a b b2j fuel queue matching_blocks
          else
            let matching_blocks := matching_blocks ++ [x] in
            let queue := if (alo <? i)%Z && (blo <? j)%Z
                         then (alo, i, blo, j) :: queue else queue in
            let queue := if (i + k <? ahi)%Z && (j + k <? bhi)%Z
                         then (i + k, ahi, j + k, bhi)%Z :: queue
                         else queue in
            blocks_loop a b b2j fuel queue matching_blocks
      end
  end.

(** Turns of the loop that are always enough, see
    [blocks_loop_terminates]. *)
Definition turns (a : list ascii) : nat := 2 * length a + 1.

(** The blocks found by [get_matching_blocks], in the order of their
    discovery.  The Python function then sorts them, merges adjacent
    blocks into one block of the added sizes and appends a block of size
    0, none of which changes the sum of the sizes that [ratio] takes. *)
Definition get_matching_blocks (a b : list ascii) : list Match :=
  default [] (blocks_loop a b (chain_b b) (turns a)
                [(0, len a, 0, len b)%Z] []).

(** [_calculate_ratio] *)
Definition calculate_ratio (matches length : Z) : float :=
  if (length =? 0)%Z then 1%float
  else (2 * float_of_int matches / float_of_int length)%float.

Definition matches (a b : list ascii) : Z :=
  fold_right Z.add 0%Z (map size (get_matching_blocks a b)).

(** [SequenceMatcher(None, a, b).ratio()] *)
Definition ratio (a b : string) : float :=
  let a := list_ascii_of_string a in
  let b := list_ascii_of_string b in
  calculate_ratio (matches a b) (len a + len b).

End difflib.

(* ===================================================================== *)
(** * similarity_score *)
(* ===================================================================== *)

(** [set(norm.split())] *)
Definition words (norm : string) : gset string := list_to_set (Py.split norm).

Definition similarity_score (name1 name2 : string) : float :=
  let norm1 := normalize_name name1 in
  let norm2 := normalize_name name2 in
  if Py.falsy norm1 || Py.falsy norm2 then 0%float
  else if String.eqb norm1 norm2 then 1%float
  else
    let words1 := words norm1 in
    let words2 := words norm2 in
    if (size (words1 ∩ words2) =? 0)%nat then 0%float
    else difflib.ratio norm1 norm2.

(* ===================================================================== *)
(** * find_best_match *)
(* ===================================================================== *)

(** The calls of [similarity_score] are logged, so that a run tells whether
    the fuzzy pass took place: a computation is a value with the list of
    the pairs of names that were scored. *)
Module Logged.

Definition t (A : Type) : Type := A * list (string * string).

Definition ret {A} (x : A) : t A := (x, []).

Definition bind {A B} (m : t A) (f : A -> t B) : t B :=
  let (y, log) := f m.1 in (y, m.2 ++ log).

Definition value {A} (m : t A) : A := m.1.
Definition log {A} (m : t A) : list (string * string) := m.2.

(** A logged call of [similarity_score]. *)
Definition score (name1 name2 : string) : t float :=
  (similarity_score name1 name2, [(name1, name2)]).

(** [for x in l: st = body st x] *)
Fixpoint for_each {A S} (l : list A) (body : S -> A -> t S) (st : S)
  : t S :=
  match l with
  | [] => ret st
  | x :: l' => bind (body st x) (for_each l' body)
  end.

End Logged.

Notation "'let*' x ':=' m 'in' k" := (Logged.bind m (fun x => k))
  (at level 10, x pattern, m at level 100, k at level 200).

(** The first loop: the first name of the pool, in iteration order, whose
    normal form is the one of the playground. *)
Fixpoint exact_pass (norm_playground : string) (sprinkler_names : list string)
  : option string :=
  match sprinkler_names with
  | [] => None
  | sprinkler_name :: rest =>
      let norm_sprinkler := normalize_name sprinkler_name in
      if String.eqb norm_playground norm_sprinkler
      then Some sprinkler_name
      else exact_pass norm_playground rest
  end.

(** [(best_match, best_score)] *)
Definition Best : Type := option string * float.

(** The validation of a candidate whose score passed the first test. *)
Definition validated (playground_name sprinkler_name : string) (score : float)
  : bool :=
  let playground_words := words (normalize_name playground_name) in
  let sprinkler_words := words (normalize_name sprinkler_name) in
  let shared_words := playground_words ∩ sprinkler_words in
  (2 <=? size shared_words)%nat || (0.99 <? score)%float.

(** What the body of the second loop does with the score of a name. *)
Definition consider (playground_name : string) (threshold : float)
    (best : Best) (sprinkler_name : string) (score : float) : Best :=
  let '(best_match, best_score) := best in
  if (best_score <? score)%float && (threshold <=? score)%float
  then if validated playground_name sprinkler_name score
       then (Some sprinkler_name, score)
       else best
  else best.

(** The body of the second loop. *)
Definition fuzzy_step (playground_name : string) (threshold : float)
    (best : Best) (sprinkler_name : string) : Logged.t Best :=
  let* score := Logged.score playground_name sprinkler_name in
  Logged.ret (consider playground_name threshold best sprinkler_name score).

Definition fuzzy_pass (playground_name : string)
    (sprinkler_names : list string) (threshold : float) : Logged.t Best :=
  Logged.for_each sprinkler_names (fuzzy_step playground_name threshold)
    (None, 0%float).

(** [find_best_match] with the log of its calls of [similarity_score];
    [sprinkler_names] lists the pool in its iteration order. *)
Definition find_best_match_logged (playground_name : string)
    (sprinkler_names : list string) (threshold : float) : Logged.t Best :=
  let norm_playground := normalize_name playground_name in
  match exact_pass norm_playground sprinkler_names with
  | Some sprinkler_name => Logged.ret (Some sprinkler_name, 1%float)
  | None => fuzzy_pass playground_name sprinkler_names threshold
  end.

Definition find_best_match (playground_name : string)
    (sprinkler_names : list string) (threshold : float) : Best :=
  Logged.value
    (find_best_match_logged playground_name sprinkler_names threshold).

(** The default value of the parameter [threshold]. *)
Definition default_threshold : float := 0.98%float.

(* ===================================================================== *)
(** * main: the matching of the two collections *)
(* ===================================================================== *)

(** The values that [json.load] produces. *)
Inductive json : Type :=
| JNone
| JBool (b : bool)
| JInt (n : Z)
| JFloat (x : float)
| JStr (s : string)
| JList (l : list json)
| JDict (d : list (string * json)).

(** The exceptions that the matching can raise. *)
Inductive exn : Type :=
| AttributeError
| KeyError.

Inductive result (A : Type) : Type :=
| Ok (x : A)
| Raise (e : exn).
Arguments Ok {A} x.
Arguments Raise {A} e.

Definition rbind {A B} (m : result A) (f : A -> result B) : result B :=
  match m with
  | Ok x => f x
  | Raise e => Raise e
  end.

Notation "'let!' x ':=' m 'in' k" := (rbind m (fun x => k))
  (at level 10, x pattern, m at level 100, k at level 200).

(** [for x in l: st = body st x], where the body may raise. *)
Fixpoint rfold {A S} (body : S -> A -> result S) (l : list A) (st : S)
  : result S :=
  match l with
  | [] => Ok st
  | x :: l' => let! st' := body st x in rfold body l' st'
  end.

(** [d.get(key, default)] *)
Definition get (d : gmap string json) (key : string) (default : json) : json :=
  match d !! key with
  | Some v => v
  | None => default
  end.

(** [d[key]] *)
Definition subscript {V} (d : gmap string V) (key : string) : result V :=
  match d !! key with
  | Some v => Ok v
  | None => Raise KeyError
  end.

(** [v.strip()]: only a [str] has the method. *)
Definition strip_method (v : json) : result string :=
  match v with
  | JStr s => Ok (Py.strip s)
  | _ => Raise AttributeError
  end.

(** The truth value of [None] or a [str]: the name when it is a non-empty
    string. *)
Definition truthy (o : option string) : option string :=
  match o with
  | Some s => if Py.falsy s then None else Some s
  | None => None
  end.

(** [sprinkler_names] and [sprinkler_lookup]. *)
Definition Pool : Type := gset string * gmap string (gmap string json).

(** The body of [for sprinkler in sprinkler_data]. *)
Definition add_sprinkler (pool : Pool) (sprinkler : gmap string json)
  : result Pool :=
  let '(sprinkler_names, sprinkler_lookup) := pool in
  let! name := strip_method (get sprinkler "subpropertyname" (JStr "")) in
  if Py.falsy name then Ok pool
  else
    Ok ({[name]} ∪ sprinkler_names,
        <[name := {[ "status" := get sprinkler "status" (JStr "");
                     "system" := get sprinkler "system" (JStr "");
                     "district" := get sprinkler "district" (JStr "");
                     "featuretype" := get sprinkler "featuretype" (JStr "")
                  ]}]> sprinkler_lookup).

(** The counters and the output list of the second loop of [main]. *)
Record Merge : Type := {
  matched_count : nat;
  fuzzy_matched_count : nat;
  enhanced_playgrounds : list (gmap string json)
}.

Definition append_playground (m : Merge) (enhanced_playground : gmap string json)
  : Merge :=
  {| matched_count := matched_count m;
     fuzzy_matched_count := fuzzy_matched_count m;
     enhanced_playgrounds := enhanced_playgrounds m ++ [enhanced_playground] |}.

(** The three assignments made from [sprinkler_lookup[name]] on a match. *)
Definition with_sprinkler (sprinkler_lookup : gmap string (gmap string json))
    (name : string) (enhanced_playground : gmap string json)
  : result (gmap string json) :=
  let enhanced_playground := <["has_sprinkler" := JBool true]> enhanced_playground in
  let! sprinkler_info := subscript sprinkler_lookup name in
  let! status := subscript sprinkler_info "status" in
  let enhanced_playground := <["sprinkler_status" := status]> enhanced_playground in
  let! system := subscript sprinkler_info "system" in
  let enhanced_playground := <["sprinkler_system" := system]> enhanced_playground in
  let! district := subscript sprinkler_info "district" in
  Ok (<["sprinkler_district" := district]> enhanced_playground).

(** The first loop of the matching: the first name of the pool that equals
    the name of the playground up to case and outer white space. *)
Fixpoint exact_loop (playground_name : string) (sprinkler_names : list string)
  : option string :=
  match sprinkler_names with
  | [] => None
  | sprinkler_name :: rest =>
      if String.eqb (Py.strip (Py.lower playground_name))
                    (Py.strip (Py.lower sprinkler_name))
      then Some sprinkler_name
      else exact_loop playground_name rest
  end.

Section main.

(** The order in which a [set] is iterated is not specified; it is the
    same for every loop over the pool, which is not changed once built. *)
Variable iteration : gset string -> list string.
Hypothesis iteration_elements : forall X, iteration X ≡ₚ elements X.

(** The body of [for playground in playground_data]. *)
Definition process_playground (pool : Pool) (m : Merge)
    (playground : gmap string json) : result Merge :=
  let '(sprinkler_names, sprinkler_lookup) := pool in
  let enhanced_playground := playground in
  let! playground_name := strip_method (get playground "Name" (JStr "")) in
  let enhanced_playground := <["has_sprinkler" := JBool false]> enhanced_playground in
  let enhanced_playground := <["sprinkler_status" := JNone]> enhanced_playground in
  let enhanced_playground := <["sprinkler_system" := JNone]> enhanced_playground in
  let enhanced_playground := <["sprinkler_district" := JNone]> enhanced_playground in
  if Py.falsy playground_name
  then Ok (append_playground m enhanced_playground)
  else
    let exact_match := exact_loop playground_name (iteration sprinkler_names) in
    match truthy exact_match with
    | Some exact_match =>
        let! enhanced_playground :=
          with_sprinkler sprinkler_lookup exact_match enhanced_playground in
        Ok (append_playground
              {| matched_count := matched_count m + 1;
                 fuzzy_matched_count := fuzzy_matched_count m;
                 enhanced_playgrounds := enhanced_playgrounds m |}
              enhanced_playground)
    | None =>
        let '(best_match, score) :=
          find_best_match playground_name (iteration sprinkler_names)
            0.8%float in
        match truthy best_match with
        | Some best_match =>
            let! enhanced_playground :=
              with_sprinkler sprinkler_lookup best_match enhanced_playground in
            Ok (append_playground
                  {| matched_count := matched_count m;
                     fuzzy_matched_count := fuzzy_matched_count m + 1;
                     enhanced_playgrounds := enhanced_playgrounds m |}
                  enhanced_playground)
        | None => Ok (append_playground m enhanced_playground)
        end
    end.

(** [main] between the loading of the two files and the writing of the
    result. *)
Definition merge (sprinkler_data playground_data : list (gmap string json))
  : result Merge :=
  let! pool := rfold add_sprinkler sprinkler_data (∅, ∅) in
  rfold (process_playground pool) playground_data
    {| matched_count := 0; fuzzy_matched_count := 0;
       enhanced_playgrounds := [] |}.

End main.

(* ===================================================================== *)
(** * Properties *)
(* ===================================================================== *)

(** ** The order of binary64 numbers *)

(** [<] and [<=] on [float] through [SFcompare], which compares two numbers
    unless one is NaN. *)
Module FloatOrder.

Definition join (c1 c2 : comparison) : comparison :=
  match c1 with Eq => c2 | _ => c1 end.

Ltac split_compare :=
  repeat match goal with
    | |- context [Z.compare ?a ?b] => destruct (Z.compare_spec a b)
    | |- context [Pos.compare ?a ?b] => destruct (Pos.compare_spec a b)
    end.

Lemma SFcompare_chain (x y z : spec_float) (c1 c2 : comparison) :
  SFcompare x y = Some c1 -> SFcompare y z = Some c2 ->
  c1 <> Gt -> c2 <> Gt ->
  SFcompare x z = Some (join c1 c2).
Proof.
  destruct x as [sx|sx| |sx mx ex], y as [sy|sy| |sy my ey],
    z as [sz|sz| |sz mz ez]; simpl; try discriminate;
    try destruct sx; try destruct sy; try destruct sz;
    intros [= <-] [= <-]; simpl; try congruence;
    change (Pcompare ?a ?b Eq) with (Pos.compare a b);
    split_compare; simpl; intros; subst; try congruence; try lia.
Qed.

Lemma SFcompare_antisym (x y : spec_float) (c : comparison) :
  SFcompare x y = Some c -> SFcompare y x = Some (CompOpp c).
Proof.
  destruct x as [sx|sx| |sx mx ex], y as [sy|sy| |sy my ey];
    simpl; try discriminate;
    try destruct sx; try destruct sy;
    intros [= <-]; simpl; try congruence;
    change (Pcompare ?a ?b Eq) with (Pos.compare a b);
    rewrite ?(Z.compare_antisym ex ey), ?(Pos.compare_antisym mx my);
    try (destruct (ex ?= ey)%Z; simpl; try reflexivity;
         destruct (mx ?= my)%positive; reflexivity).
Qed.

Lemma SFcompare_comparable (x y a b : spec_float) (c1 c2 : comparison) :
  SFcompare a x = Some c1 -> SFcompare b y = Some c2 ->
  exists c, SFcompare x y = Some c.
Proof.
  destruct x, y, a, b; simpl; intros; try discriminate; eauto.
Qed.

Definition cmp (x y : float) : option comparison :=
  SFcompare (Prim2SF x) (Prim2SF y).

Lemma ltb_cmp (x y : float) : (x <? y)%float = true <-> cmp x y = Some Lt.
Proof.
  rewrite FloatAxioms.ltb_spec. unfold SFltb, cmp.
  destruct (SFcompare _ _) as [[]|]; split; congruence.
Qed.

Lemma leb_cmp (x y : float) :
  (x <=? y)%float = true <-> exists c, cmp x y = Some c /\ c <> Gt.
Proof.
  rewrite FloatAxioms.leb_spec. unfold SFleb, cmp.
  destruct (SFcompare _ _) as [[]|]; split;
    try congruence; try (intros (c & [= <-] & H); congruence);
    intros _; eexists; split; try reflexivity; congruence.
Qed.

Lemma ltb_leb (x y : float) :
  (x <? y)%float = true -> (x <=? y)%float = true.
Proof.
  rewrite ltb_cmp, leb_cmp. intros H. exists Lt. split; congruence.
Qed.

Lemma ltb_irrefl (x : float) : (x <? x)%float = false.
Proof.
  destruct (x <? x)%float eqn:E; [|reflexivity].
  apply ltb_cmp in E. unfold cmp in E.
  pose proof (SFcompare_antisym _ _ _ E) as E'. simpl in E'. congruence.
Qed.

Lemma leb_trans (x y z : float) :
  (x <=? y)%float = true -> (y <=? z)%float = true ->
  (x <=? z)%float = true.
Proof.
  rewrite !leb_cmp. intros (c1 & H1 & N1) (c2 & H2 & N2).
  exists (join c1 c2). split.
  - now apply SFcompare_chain with (y := Prim2SF y).
  - destruct c1, c2; simpl; congruence.
Qed.

Lemma ltb_leb_trans (x y z : float) :
  (x <? y)%float = true -> (y <=? z)%float = true ->
  (x <? z)%float = true.
Proof.
  rewrite !ltb_cmp, leb_cmp. intros H1 (c2 & H2 & N2).
  unfold cmp.
  rewrite (SFcompare_chain _ _ _ _ _ H1 H2); [reflexivity|congruence|easy].
Qed.

Lemma leb_ltb_trans (x y z : float) :
  (x <=? y)%float = true -> (y <? z)%float = true ->
  (x <? z)%float = true.
Proof.
  rewrite !ltb_cmp, leb_cmp. intros (c1 & H1 & N1) H2.
  unfold cmp.
  rewrite (SFcompare_chain _ _ _ _ _ H1 H2); [|easy|congruence].
  destruct c1; simpl; congruence.
Qed.

Lemma ltb_trans (x y z : float) :
  (x <? y)%float = true -> (y <? z)%float = true ->
  (x <? z)%float = true.
Proof. intros H1 H2. eapply ltb_leb_trans; [eassumption|now apply ltb_leb]. Qed.

(** Two numbers that are each the larger side of a valid comparison are
    not NaN, hence ordered one way or the other. *)
Lemma not_leb_ltb (x y a b : float) :
  (a <? x)%float = true -> (b <=? y)%float = true ->
  (y <=? x)%float = false -> (x <? y)%float = true.
Proof.
  rewrite ltb_cmp, leb_cmp. intros Ha (cb & Hb & _) Hle.
  destruct (SFcompare_comparable _ _ _ _ _ _ Ha Hb) as (c & Hc).
  apply ltb_cmp. unfold cmp. rewrite Hc.
  destruct c; [| reflexivity |].
  - exfalso. apply SFcompare_antisym in Hc. simpl in Hc.
    assert ((y <=? x)%float = true); [|congruence].
    apply leb_cmp. exists Eq. split; [exact Hc|congruence].
  - exfalso. apply SFcompare_antisym in Hc. simpl in Hc.
    assert ((y <=? x)%float = true); [|congruence].
    apply leb_cmp. exists Lt. split; [exact Hc|congruence].
Qed.

End FloatOrder.

(** ** The exact pass *)

Lemma falsy_spec (s : string) : Py.falsy s = true <-> s = "".
Proof. unfold Py.falsy. apply String.eqb_eq. Qed.

(** When some name of the pool has the wanted normal form, the first loop
    returns the first such name. *)
Lemma exact_pass_first (norm : string) (pool : list string) :
  (exists c, In c pool /\ normalize_name c = norm) ->
  exists before c after,
    pool = before ++ c :: after
    /\ normalize_name c = norm
    /\ (forall x, In x before -> normalize_name x <> norm)
    /\ exact_pass norm pool = Some c.
Proof.
  induction pool as [|x pool IH]; intros (c & Hin & Hc).
  - destruct Hin.
  - simpl. destruct (String.eqb norm (normalize_name x)) eqn:E.
    + apply String.eqb_eq in E.
      exists [], x, pool. repeat split; auto; now intros y [].
    + apply String.eqb_neq in E.
      destruct Hin as [-> | Hin]; [congruence|].
      destruct IH as (before & c' & after & -> & Hc' & Hbefore & Hpass);
        [now exists c|].
      exists (x :: before), c', after. repeat split; auto.
      intros y [<- | Hy]; [congruence | now apply Hbefore].
Qed.

Lemma exact_pass_none (norm : string) (pool : list string) :
  exact_pass norm pool = None ->
  forall c, In c pool -> normalize_name c <> norm.
Proof.
  induction pool as [|x pool IH]; simpl; intros Hnone c Hin; [easy|].
  destruct (String.eqb norm (normalize_name x)) eqn:E; [discriminate|].
  apply String.eqb_neq in E.
  destruct Hin as [<- | Hin]; [congruence | now apply IH].
Qed.

(** [similarity_score] is 0 as soon as one normal form is empty. *)
Lemma similarity_score_empty (name1 name2 : string) :
  normalize_name name1 = "" \/ normalize_name name2 = "" ->
  similarity_score name1 name2 = 0%float.
Proof.
  unfold similarity_score. intros [-> | ->]; simpl; [reflexivity|].
  now rewrite orb_true_r.
Qed.

(** C1: if the pool contains a candidate whose normalized form equals the
    normalized query, [find_best_match] returns a candidate of the pool
    with that normalized form and the score 1.0, for every threshold, and
    [similarity_score] is not called: the fuzzy pass does not run. *)
Theorem find_best_match_exact_precedence
    (query : string) (pool : list string) (threshold : float) :
  (exists c, In c pool /\ normalize_name c = normalize_name query) ->
  exists c,
    In c pool
    /\ normalize_name c = normalize_name query
    /\ find_best_match query pool threshold = (Some c, 1%float)
    /\ Logged.log (find_best_match_logged query pool threshold) = [].
Proof.
  intros H.
  destruct (exact_pass_first _ _ H) as (before & c & after & -> & Hc & _ & E).
  exists c. split; [apply in_or_app; right; now left|].
  split; [exact Hc|].
  unfold find_best_match, find_best_match_logged. rewrite E. now split.
Qed.

Lemma find_best_match_exact_precedence_witness :
  exists c,
    In c ["Diana Ross Park"; "Fort Greene Playground"]
    /\ normalize_name c = normalize_name "Fort Greene Park"
    /\ find_best_match "Fort Greene Park"
         ["Diana Ross Park"; "Fort Greene Playground"] 0.8%float
       = (Some c, 1%float)
    /\ Logged.log (find_best_match_logged "Fort Greene Park"
         ["Diana Ross Park"; "Fort Greene Playground"] 0.8%float) = [].
Proof.
  apply (find_best_match_exact_precedence "Fort Greene Park"
           ["Diana Ross Park"; "Fort Greene Playground"] 0.8%float).
  exists "Fort Greene Playground". split.
  - simpl. auto.
  - vm_compute. reflexivity.
Defined.

(** C10: when the normalized query is empty and the pool contains a
    candidate whose normalized form is empty too, [find_best_match] returns
    the first such candidate with the score 1.0 from the exact pass (no
    call of [similarity_score]), although [similarity_score] gives 0 to
    every pair with an empty normal form, this one included. *)
Theorem find_best_match_empty_normal_form
    (query : string) (pool : list string) (threshold : float) :
  normalize_name query = "" ->
  (exists c, In c pool /\ normalize_name c = "") ->
  exists before c after,
    pool = before ++ c :: after
    /\ normalize_name c = ""
    /\ (forall x, In x before -> normalize_name x <> "")
    /\ find_best_match_logged query pool threshold = (Some c, 1%float, [])
    /\ similarity_score query c = 0%float
    /\ (forall other, similarity_score query other = 0%float
                      /\ similarity_score other query = 0%float).
Proof.
  intros Hq H.
  destruct (exact_pass_first "" pool H)
    as (before & c & after & -> & Hc & Hbefore & E).
  exists before, c, after. repeat split; auto.
  - unfold find_best_match_logged. rewrite Hq, E. reflexivity.
  - apply similarity_score_empty; now left.
  - apply similarity_score_empty; now left.
  - apply similarity_score_empty; now right.
Qed.

Lemma find_best_match_empty_normal_form_witness :
  exists before c after,
    ["Diana Ross Park"; "?"; "!"] = before ++ c :: after
    /\ normalize_name c = ""
    /\ (forall x, In x before -> normalize_name x <> "")
    /\ find_best_match_logged "..." ["Diana Ross Park"; "?"; "!"] 0.8%float
       = (Some c, 1%float, [])
    /\ similarity_score "..." c = 0%float
    /\ (forall other, similarity_score "..." other = 0%float
                      /\ similarity_score other "..." = 0%float).
Proof.
  apply (find_best_match_empty_normal_form "..."
           ["Diana Ross Park"; "?"; "!"] 0.8%float).
  - vm_compute. reflexivity.
  - exists "?". split.
    + simpl. auto.
    + vm_compute. reflexivity.
Defined.

(** ** The fuzzy pass *)

(** The body of the second loop without the log. *)
Definition fuzzy_body (query : string) (threshold : float) (best : Best)
    (candidate : string) : Best :=
  consider query threshold best candidate (similarity_score query candidate).

Lemma fuzzy_step_value query threshold best candidate :
  fuzzy_step query threshold best candidate
  = (fuzzy_body query threshold best candidate, [(query, candidate)]).
Proof. reflexivity. Qed.

Lemma for_each_fuzzy_step query threshold pool best :
  Logged.for_each pool (fuzzy_step query threshold) best
  = (fold_left (fuzzy_body query threshold) pool best,
     map (fun candidate => (query, candidate)) pool).
Proof.
  revert best. induction pool as [|c pool IH]; intros best; [reflexivity|].
  cbn [Logged.for_each fold_left map]. rewrite fuzzy_step_value.
  unfold Logged.bind. cbn [fst snd]. now rewrite IH.
Qed.

Lemma fuzzy_pass_value query pool threshold :
  Logged.value (fuzzy_pass query pool threshold)
  = fold_left (fuzzy_body query threshold) pool (None, 0%float).
Proof. unfold fuzzy_pass. now rewrite for_each_fuzzy_step. Qed.

(** The number of words that the two normal forms share. *)
Definition shared_words (query candidate : string) : nat :=
  size (words (normalize_name query) ∩ words (normalize_name candidate)).

(** The condition of the claim: the score exceeds the best score, reaches
    the threshold and is validated. *)
Definition accepted (query : string) (threshold : float) (best_score : float)
    (candidate : string) : bool :=
  let score := similarity_score query candidate in
  (best_score <? score)%float && (threshold <=? score)%float
  && ((2 <=? shared_words query candidate)%nat || (0.99 <? score)%float).

(** C2: in the fuzzy pass a candidate becomes the running best exactly when
    its score strictly exceeds the best score so far, is at least the
    threshold, and the normalized names share at least 2 words or the score
    exceeds 0.99; otherwise the running best is left as it is.  So a
    candidate sharing two words whose score reaches the threshold and
    exceeds the best score is admitted, as
    "Fort Greene Playground" is for the query "Fort Greene Park". *)
Theorem fuzzy_step_accepts
    (query : string) (threshold : float) (best_match : option string)
    (best_score : float) (candidate : string) :
  let score := similarity_score query candidate in
  let next :=
    Logged.value (fuzzy_step query threshold (best_match, best_score)
                    candidate) in
  next = (if accepted query threshold best_score candidate
          then (Some candidate, score) else (best_match, best_score))
  /\ (accepted query threshold best_score candidate = true
      <-> next.2 <> best_score)
  /\ ((2 <= shared_words query candidate)%nat ->
      (threshold <=? score)%float = true ->
      (best_score <? score)%float = true ->
      next = (Some candidate, score))
  /\ (shared_words "Fort Greene Park" "Fort Greene Playground" = 2%nat
      /\ fuzzy_pass "Fort Greene Park" ["Fort Greene Playground"] 0.8%float
         = (Some "Fort Greene Playground", 1%float,
            [("Fort Greene Park", "Fort Greene Playground")])).
Proof.
  intros score next.
  assert (Hnext : next = if accepted query threshold best_score candidate
                         then (Some candidate, score)
                         else (best_match, best_score)).
  { subst next. rewrite fuzzy_step_value. unfold Logged.value. cbn [fst].
    unfold fuzzy_body, consider, accepted, validated, shared_words.
    fold score.
    destruct (best_score <? score)%float, (threshold <=? score)%float;
      cbn [andb]; reflexivity. }
  split; [exact Hnext|]. split; [|split].
  - rewrite Hnext. split.
    + intros E. rewrite E. cbn [snd]. intros Heq.
      unfold accepted in E. fold score in E.
      rewrite Heq, FloatOrder.ltb_irrefl in E. discriminate.
    + destruct (accepted _ _ _ _); [reflexivity|]. cbn [snd]. congruence.
  - intros Hshared Ht Hb. rewrite Hnext. unfold accepted. fold score.
    rewrite Hb, Ht. apply Nat.leb_le in Hshared. rewrite Hshared.
    reflexivity.
  - split; vm_compute; reflexivity.
Qed.

Lemma fuzzy_step_accepts_witness :
  Logged.value (fuzzy_step "Fort Greene Park East" 0.8%float
                  (Some "Diana Ross Park", 0.5%float) "Fort Greene Park West")
  = (Some "Fort Greene Park West",
     similarity_score "Fort Greene Park East" "Fort Greene Park West").
Proof.
  apply (fuzzy_step_accepts "Fort Greene Park East" 0.8%float
           (Some "Diana Ross Park") 0.5%float "Fort Greene Park West").
  - vm_compute. lia.
  - vm_compute. reflexivity.
  - vm_compute. reflexivity.
Defined.

(** ** The threshold *)

(** How the runs of the second loop at two thresholds [t1 <= t2] are
    related: as long as the higher threshold has not accepted a name, the
    best score at the lower one is below [t2]; from then on the two runs
    agree. *)
Definition lagging (t2 : float) (best1 best2 : Best) : Prop :=
  best2 = (None, 0%float)
  /\ (0 <=? best1.2)%float = true
  /\ (best1 = (None, 0%float) \/ (best1.2 <? t2)%float = true).

Definition agreeing (t2 : float) (best1 best2 : Best) : Prop :=
  best1 = best2 /\ best1.1 <> None /\ (t2 <=? best1.2)%float = true.

Lemma consider_thresholds query t1 t2 candidate score best1 best2 :
  (t1 <=? t2)%float = true ->
  lagging t2 best1 best2 \/ agreeing t2 best1 best2 ->
  let next1 := consider query t1 best1 candidate score in
  let next2 := consider query t2 best2 candidate score in
  lagging t2 next1 next2 \/ agreeing t2 next1 next2.
Proof.
  intros Ht [(-> & Hpos & Hlag) | (<- & Hsome & Hge)]; cbn zeta.
  - destruct best1 as [m1 s1]. cbn [snd] in *. unfold consider.
    destruct (validated query candidate score) eqn:V.
    + destruct ((0 <? score)%float && (t2 <=? score)%float) eqn:E2.
      * apply andb_prop in E2 as [E0 E2].
        assert (E1 : (s1 <? score)%float = true).
        { destruct Hlag as [[= -> ->] | Hlag]; [exact E0|].
          eapply FloatOrder.ltb_leb_trans; eassumption. }
        rewrite E1, (FloatOrder.leb_trans _ _ _ Ht E2). cbn [andb].
        right. repeat split; [discriminate | exact E2].
      * destruct ((s1 <? score)%float && (t1 <=? score)%float) eqn:E1.
        -- apply andb_prop in E1 as [E1 E1'].
           assert (E0 : (0 <? score)%float = true)
             by (eapply FloatOrder.leb_ltb_trans; eassumption).
           rewrite E0 in E2. cbn [andb] in E2.
           left. repeat split; cbn [snd].
           ++ now apply FloatOrder.ltb_leb.
           ++ right. eapply FloatOrder.not_leb_ltb; eassumption.
        -- left. repeat split; assumption.
    + rewrite !Tauto.if_same. left. repeat split; assumption.
  - destruct best1 as [m1 s1]. cbn [fst snd] in *. unfold consider.
    destruct (s1 <? score)%float eqn:E; cbn [andb].
    + assert (E2 : (t2 <=? score)%float = true).
      { apply FloatOrder.ltb_leb.
        eapply FloatOrder.leb_ltb_trans; eassumption. }
      rewrite E2, (FloatOrder.leb_trans _ _ _ Ht E2).
      destruct (validated query candidate score).
      * right. repeat split; [discriminate | exact E2].
      * right. repeat split; assumption.
    + right. repeat split; assumption.
Qed.

Lemma fuzzy_thresholds query t1 t2 pool best1 best2 :
  (t1 <=? t2)%float = true ->
  lagging t2 best1 best2 \/ agreeing t2 best1 best2 ->
  let last1 := fold_left (fuzzy_body query t1) pool best1 in
  let last2 := fold_left (fuzzy_body query t2) pool best2 in
  lagging t2 last1 last2 \/ agreeing t2 last1 last2.
Proof.
  intros Ht. revert best1 best2.
  induction pool as [|c pool IH]; intros best1 best2 H; [exact H|].
  cbn [fold_left]. apply IH. unfold fuzzy_body.
  now apply consider_thresholds.
Qed.

(** C7: for thresholds [t1 <= t2], a query without a match at [t1] has no
    match at [t2], and a query matched at both thresholds is matched to the
    same candidate. *)
Theorem find_best_match_threshold_monotone
    (query : string) (pool : list string) (t1 t2 : float) :
  (t1 <=? t2)%float = true ->
  ((find_best_match query pool t1).1 = None ->
   (find_best_match query pool t2).1 = None)
  /\ (forall c1 c2,
        (find_best_match query pool t1).1 = Some c1 ->
        (find_best_match query pool t2).1 = Some c2 ->
        c1 = c2).
Proof.
  intros Ht. unfold find_best_match, find_best_match_logged.
  destruct (exact_pass (normalize_name query) pool) as [c|].
  - cbn. split; congruence.
  - rewrite !fuzzy_pass_value.
    destruct (fuzzy_thresholds query t1 t2 pool (None, 0%float)
                (None, 0%float) Ht) as [(E2 & _) | (E & Hsome & _)].
    + left. repeat split. now left.
    + rewrite E2. cbn. split; congruence.
    + rewrite <- E. split; congruence.
Qed.

Lemma find_best_match_threshold_monotone_witness :
  ((find_best_match "Fort Greene Park East"
      ["Diana Ross Park"; "Fort Greene Park West"; "Fort Greene East"]
      0.8%float).1 = None ->
   (find_best_match "Fort Greene Park East"
      ["Diana Ross Park"; "Fort Greene Park West"; "Fort Greene East"]
      0.9%float).1 = None)
  /\ (forall c1 c2,
        (find_best_match "Fort Greene Park East"
           ["Diana Ross Park"; "Fort Greene Park West"; "Fort Greene East"]
           0.8%float).1 = Some c1 ->
        (find_best_match "Fort Greene Park East"
           ["Diana Ross Park"; "Fort Greene Park West"; "Fort Greene East"]
           0.9%float).1 = Some c2 ->
        c1 = c2).
Proof.
  apply (find_best_match_threshold_monotone "Fort Greene Park East"
           ["Diana Ross Park"; "Fort Greene Park West"; "Fort Greene East"]
           0.8%float 0.9%float).
  vm_compute. reflexivity.
Defined.

(** ** Names without a common word *)

Lemma consider_not_validated query threshold best candidate score :
  validated query candidate score = false ->
  consider query threshold best candidate score = best.
Proof.
  intros V. unfold consider. destruct best as [m b]. rewrite V.
  now destruct (_ && _).
Qed.

(** The claim C3 presents "Dan Ross Playground" and "Diana Ross Park" as a
    pair without a common word, scored 0.  The normal forms "dan ross" and
    "diana ross" share the word "ross", and the score is the ratio of the
    sequence matcher, 16/18. *)
Lemma dan_ross_diana_ross_share_a_word :
  "ross" ∈ words (normalize_name "Dan Ross Playground")
           ∩ words (normalize_name "Diana Ross Park")
  /\ similarity_score "Dan Ross Playground" "Diana Ross Park"
     = (16 / 18)%float
  /\ similarity_score "Dan Ross Playground" "Diana Ross Park" <> 0%float.
Proof.
  split; [|split].
  - apply (bool_decide_unpack _). vm_compute. reflexivity.
  - vm_compute. reflexivity.
  - intros E.
    assert (X : (0 <? similarity_score "Dan Ross Playground"
                        "Diana Ross Park")%float = true)
      by (vm_compute; reflexivity).
    rewrite E in X. vm_compute in X. discriminate.
Qed.

(** C3, amended: two names whose normal forms are non-empty, different and
    without a common word have the score 0.  "Dan Ross Playground" and
    "Diana Ross Park" are not such a pair; for that query and that sole
    candidate [find_best_match] still returns no match at every threshold,
    because one word only is shared and the score, 16/18, does not exceed
    0.99. *)
Theorem similarity_score_no_shared_word :
  (forall name1 name2 : string,
      normalize_name name1 <> "" ->
      normalize_name name2 <> "" ->
      normalize_name name1 <> normalize_name name2 ->
      words (normalize_name name1) ∩ words (normalize_name name2) = ∅ ->
      similarity_score name1 name2 = 0%float)
  /\ (forall threshold : float,
        find_best_match_logged "Dan Ross Playground" ["Diana Ross Park"]
          threshold
        = (None, 0%float, [("Dan Ross Playground", "Diana Ross Park")]))
  /\ shared_words "Dan Ross Playground" "Diana Ross Park" = 1%nat
  /\ (similarity_score "Dan Ross Playground" "Diana Ross Park"
      <=? 0.99)%float = true.
Proof.
  split; [|split; [|split]].
  - intros name1 name2 H1 H2 H12 Hw. unfold similarity_score.
    destruct (Py.falsy (normalize_name name1)) eqn:F1;
      [now apply falsy_spec in F1|].
    destruct (Py.falsy (normalize_name name2)) eqn:F2;
      [now apply falsy_spec in F2|].
    cbn [orb].
    destruct (String.eqb _ _) eqn:E; [now apply String.eqb_eq in E|].
    rewrite Hw, size_empty. reflexivity.
  - intros threshold. unfold find_best_match_logged.
    replace (exact_pass _ _) with (@None string)
      by (vm_compute; reflexivity).
    unfold fuzzy_pass. rewrite for_each_fuzzy_step.
    cbn [fold_left map]. unfold fuzzy_body.
    rewrite consider_not_validated; [reflexivity|].
    vm_compute. reflexivity.
  - vm_compute. reflexivity.
  - vm_compute. reflexivity.
Qed.

Lemma similarity_score_no_shared_word_witness :
  similarity_score "Dan Ross Playground" "Fort Greene Park" = 0%float.
Proof.
  apply (proj1 similarity_score_no_shared_word).
  - vm_compute. discriminate.
  - vm_compute. discriminate.
  - vm_compute. discriminate.
  - vm_compute. reflexivity.
Defined.

(** ** Punctuation *)



(** ** The matching of the collections *)

Definition asser_levy_playground : gmap string json :=
  {[ "Name" := JStr "Asser Levy Playground" ]}.

Definition asser_levy_sprinkler : gmap string json :=
  {[ "subpropertyname" := JStr "Asser Levy Park";
     "status" := JStr "Active" ]}.

Lemma iteration_singleton (iteration : gset string -> list string)
    (name : string) :
  (forall X, iteration X ≡ₚ elements X) ->
  iteration {[name]} = [name].
Proof.
  intros H. apply Permutation_singleton_r.
  rewrite H. now rewrite elements_singleton.
Qed.

Lemma asser_levy_pool :
  rfold add_sprinkler [asser_levy_sprinkler] (∅, ∅)
  = Ok ({["Asser Levy Park"]},
        {["Asser Levy Park" :=
            {[ "status" := JStr "Active"; "system" := JStr "";
               "district" := JStr ""; "featuretype" := JStr "" ]}]}).
Proof. reflexivity. Qed.

(** C8: for the playground {"Name": "Asser Levy Playground"} and the
    sprinkler {"subpropertyname": "Asser Levy Park", "status": "Active"}
    the enriched playground has [has_sprinkler] true and
    [sprinkler_status] "Active".  The first loop of [main], which compares
    the lower-cased names, finds nothing; the match comes from the call
    [find_best_match(..., threshold=0.8)] of the fuzzy branch, which counts
    it in [fuzzy_matched_count]. *)
Theorem merge_asser_levy (iteration : gset string -> list string) :
  (forall X, iteration X ≡ₚ elements X) ->
  exists enhanced,
    merge iteration [asser_levy_sprinkler] [asser_levy_playground]
    = Ok {| matched_count := 0; fuzzy_matched_count := 1;
            enhanced_playgrounds := [enhanced] |}
    /\ enhanced !! "has_sprinkler" = Some (JBool true)
    /\ enhanced !! "sprinkler_status" = Some (JStr "Active")
    /\ enhanced !! "Name" = Some (JStr "Asser Levy Playground")
    /\ exact_loop "Asser Levy Playground" ["Asser Levy Park"] = None
    /\ find_best_match "Asser Levy Playground" ["Asser Levy Park"] 0.8%float
       = (Some "Asser Levy Park", 1%float).
Proof.
  intros H. eexists. split; [|split; [|split; [|split; [|split]]]].
  - unfold merge. rewrite asser_levy_pool.
    cbn [rbind rfold]. unfold process_playground.
    rewrite (iteration_singleton iteration _ H).
    replace (get asser_levy_playground "Name" (JStr ""))
      with (JStr "Asser Levy Playground") by reflexivity.
    cbn [strip_method rbind].
    replace (Py.strip "Asser Levy Playground")
      with "Asser Levy Playground" by (vm_compute; reflexivity).
    replace (Py.falsy "Asser Levy Playground")
      with false by (vm_compute; reflexivity).
    replace (exact_loop "Asser Levy Playground" ["Asser Levy Park"])
      with (@None string) by (vm_compute; reflexivity).
    replace (find_best_match "Asser Levy Playground" ["Asser Levy Park"]
               0.8%float)
      with (Some "Asser Levy Park", 1%float) by (vm_compute; reflexivity).
    cbn [truthy].
    replace (Py.falsy "Asser Levy Park")
      with false by (vm_compute; reflexivity).
    reflexivity.
  - reflexivity.
  - reflexivity.
  - reflexivity.
  - vm_compute. reflexivity.
  - vm_compute. reflexivity.
Qed.

Lemma merge_asser_levy_witness :
  exists enhanced,
    merge elements [asser_levy_sprinkler] [asser_levy_playground]
    = Ok {| matched_count := 0; fuzzy_matched_count := 1;
            enhanced_playgrounds := [enhanced] |}
    /\ enhanced !! "has_sprinkler" = Some (JBool true)
    /\ enhanced !! "sprinkler_status" = Some (JStr "Active")
    /\ enhanced !! "Name" = Some (JStr "Asser Levy Playground")
    /\ exact_loop "Asser Levy Playground" ["Asser Levy Park"] = None
    /\ find_best_match "Asser Levy Playground" ["Asser Levy Park"] 0.8%float
       = (Some "Asser Levy Park", 1%float).
Proof.
  apply (merge_asser_levy elements). intros X. reflexivity.
Defined.

(** ** The sequence matcher: termination and size of the matches *)

Module difflib_facts.
Import difflib.

Section bounds.
Variables (a b : list ascii) (b2j : gmap ascii (list Z)).
Variables (alo ahi blo bhi : Z).

(** A match that lies in [a[alo:n]] and in [b[blo:bhi]]. *)
Definition within (n : Z) (best : Match) : Prop :=
  (alo <= best.1.1 /\ best.1.1 + size best <= n
   /\ blo <= best.1.2 /\ best.1.2 + size best <= bhi
   /\ 0 <= size best)%Z.

(** The lengths stored in [j2len]: at most [n], and the one stored for [j]
    is at most the number of elements from [blo] to [j]. *)
Definition lengths_upto (n : Z) (j2len : gmap Z Z) : Prop :=
  forall j v, j2len !! j = Some v -> (0 <= v <= n /\ v <= j - blo + 1)%Z.

Lemma scan_js_within i j2len js newj2len best :
  (alo <= i)%Z ->
  lengths_upto (i - alo) j2len ->
  lengths_upto (i + 1 - alo) newj2len ->
  within (i + 1) best ->
  lengths_upto (i + 1 - alo) (scan_js blo bhi i j2len js newj2len best).1
  /\ within (i + 1) (scan_js blo bhi i j2len js newj2len best).2.
Proof.
  intros Hi Hold. revert newj2len best.
  induction js as [|j js IH]; intros newj2len best Hnew Hbest;
    cbn [scan_js]; [now split|].
  destruct (j <? blo)%Z eqn:Elo; [now apply IH|].
  destruct (bhi <=? j)%Z eqn:Ehi; [now split|].
  apply Z.ltb_ge in Elo. apply Z.leb_gt in Ehi.
  assert (Hk : (0 <= default 0 (j2len !! (j - 1)%Z) <= i - alo
                /\ default 0 (j2len !! (j - 1)%Z) <= j - blo)%Z).
  { destruct (j2len !! (j - 1)%Z) as [v|] eqn:E; cbn.
    - apply Hold in E. lia.
    - lia. }
  apply IH.
  - intros j' v. rewrite lookup_insert. case_decide.
    + intros [= <-]. lia.
    + apply Hnew.
  - destruct (size best <? _)%Z; [|exact Hbest].
    unfold within, size. cbn [fst snd]. lia.
Qed.

Lemma scan_range_within (n s : nat) (st : gmap Z Z * Match) :
  lengths_upto (Z.of_nat s) st.1 ->
  within (alo + Z.of_nat s) st.2 ->
  within (alo + Z.of_nat (s + n))
    (fold_left (scan_i a b2j blo bhi)
       (map (fun k => alo + Z.of_nat k)%Z (seq s n)) st).2.
Proof.
  revert s st. induction n as [|n IH]; intros s st Hlen Hbest.
  - cbn [seq map fold_left]. now rewrite Nat.add_0_r.
  - cbn [seq map fold_left].
    replace (s + S n)%nat with (S s + n)%nat by lia.
    destruct (scan_js_within (alo + Z.of_nat s) st.1
                (default [] (b2j !! item a (alo + Z.of_nat s))) ∅ st.2)
      as [Hlen' Hbest'].
    + lia.
    + now replace (alo + Z.of_nat s - alo)%Z with (Z.of_nat s) by lia.
    + intros j v. now rewrite lookup_empty.
    + unfold within in *. lia.
    + apply IH; unfold scan_i.
      * now replace (Z.of_nat (S s))
          with (alo + Z.of_nat s + 1 - alo)%Z by lia.
      * now replace (alo + Z.of_nat (S s))%Z
          with (alo + Z.of_nat s + 1)%Z by lia.
Qed.

Lemma extend_left_within fuel n best :
  within n best -> within n (extend_left a b alo blo fuel best).
Proof.
  revert best. induction fuel as [|fuel IH]; intros [[i j] k] H;
    cbn [extend_left]; [exact H|].
  destruct (_ && _) eqn:E; [|exact H].
  apply IH. apply andb_prop in E as [E _]. apply andb_prop in E as [E1 E2].
  apply Z.ltb_lt in E1, E2.
  unfold within, size in *. cbn [fst snd] in *. lia.
Qed.

Lemma extend_right_within fuel best :
  within ahi best -> within ahi (extend_right a b ahi bhi fuel best).
Proof.
  revert best. induction fuel as [|fuel IH]; intros [[i j] k] H;
    cbn [extend_right]; [exact H|].
  destruct (_ && _) eqn:E; [|exact H].
  apply IH. apply andb_prop in E as [E _]. apply andb_prop in E as [E1 E2].
  apply Z.ltb_lt in E1, E2.
  unfold within, size in *. cbn [fst snd] in *. lia.
Qed.

(** The match of [find_longest_match] lies in [a[alo:ahi]] and in
    [b[blo:bhi]]. *)
Lemma find_longest_match_within :
  (alo <= ahi)%Z -> (blo <= bhi)%Z ->
  within ahi (find_longest_match a b b2j alo ahi blo bhi).
Proof.
  intros Ha Hb. unfold find_longest_match.
  apply extend_right_within, extend_left_within.
  unfold range.
  replace ahi with (alo + Z.of_nat (0 + Z.to_nat (ahi - alo)))%Z at 1
    by lia.
  apply scan_range_within; cbn [fst snd].
  - intros j v. now rewrite lookup_empty.
  - unfold within, size. cbn [fst snd]. lia.
Qed.

End bounds.
(** The queue of [get_matching_blocks] holds ranges that are not reversed;
    a range weighs twice the length of its part of [a] plus one. *)
Definition ordered (r : Range) : Prop :=
  (r.1.1.1 <= r.1.1.2 /\ r.1.2 <= r.2)%Z.

Definition weight (r : Range) : nat :=
  2 * Z.to_nat (r.1.1.2 - r.1.1.1) + 1.

Definition total (queue : list Range) : nat :=
  fold_right Nat.add 0%nat (map weight queue).

(** The elements of [a], and of [b], in the ranges of the queue. *)
Definition a_left (queue : list Range) : Z :=
  fold_right Z.add 0%Z (map (fun r : Range => r.1.1.2 - r.1.1.1)%Z queue).

Definition b_left (queue : list Range) : Z :=
  fold_right Z.add 0%Z (map (fun r : Range => r.2 - r.1.2)%Z queue).

Definition sizes (blocks : list Match) : Z :=
  fold_right Z.add 0%Z (map size blocks).

Lemma total_cons r queue : total (r :: queue) = (weight r + total queue)%nat.
Proof. reflexivity. Qed.

Lemma a_left_cons r queue :
  a_left (r :: queue) = (r.1.1.2 - r.1.1.1 + a_left queue)%Z.
Proof. reflexivity. Qed.

Lemma b_left_cons r queue :
  b_left (r :: queue) = (r.2 - r.1.2 + b_left queue)%Z.
Proof. reflexivity. Qed.

Lemma sizes_app blocks x : sizes (blocks ++ [x]) = (sizes blocks + size x)%Z.
Proof.
  unfold sizes. induction blocks as [|y blocks IH]; cbn [app map fold_right].
  - lia.
  - rewrite IH. lia.
Qed.

Lemma blocks_loop_enough a b b2j fuel queue matching_blocks :
  Forall ordered queue ->
  (total queue <= fuel)%nat ->
  exists blocks,
    blocks_loop a b b2j fuel queue matching_blocks = Some blocks
    /\ (sizes matching_blocks <= sizes blocks)%Z
    /\ (sizes blocks <= sizes matching_blocks + a_left queue)%Z
    /\ (sizes blocks <= sizes matching_blocks + b_left queue)%Z.
Proof.
  revert queue matching_blocks.
  induction fuel as [|fuel IH]; intros queue acc Hord Hfuel.
  - destruct queue as [|[[[alo ahi] blo] bhi] queue].
    + exists acc. cbn. repeat split; lia.
    + cbn in Hfuel. lia.
  - destruct queue as [|[[[alo ahi] blo] bhi] queue]; cbn [blocks_loop].
    + exists acc. cbn. repeat split; lia.
    + apply Forall_cons in Hord as [[Ha Hb] Hord]. cbn [fst snd] in Ha, Hb.
      pose proof (find_longest_match_within a b b2j alo ahi blo bhi Ha Hb)
        as Hw.
      destruct (find_longest_match a b b2j alo ahi blo bhi) as [[i j] k].
      unfold within, size in Hw. cbn [fst snd] in Hw.
      rewrite total_cons in Hfuel. rewrite a_left_cons, b_left_cons.
      unfold weight in Hfuel. cbn [fst snd] in Hfuel |- *.
      destruct (k =? 0)%Z eqn:Ek.
      { destruct (IH queue acc Hord) as (blocks & E & H1 & H2 & H3); [lia|].
        exists blocks. repeat split; try assumption; lia. }
      apply Z.eqb_neq in Ek.
      set (q1 := if (alo <? i)%Z && (blo <? j)%Z
                 then (alo, i, blo, j) :: queue else queue).
      set (q2 := if (i + k <? ahi)%Z && (j + k <? bhi)%Z
                 then (i + k, ahi, j + k, bhi)%Z :: q1 else q1).
      assert (Hq1 : Forall ordered q1
                    /\ (total q1 <= total queue + 2 * Z.to_nat (i - alo) + 1)%nat
                    /\ (a_left q1 <= a_left queue + (i - alo))%Z
                    /\ (b_left q1 <= b_left queue + (j - blo))%Z
                    /\ ((alo < i)%Z \/ total q1 = total queue)).
      { clear q2. subst q1. destruct ((alo <? i)%Z && (blo <? j)%Z) eqn:E1.
        - apply andb_prop in E1 as [E1 E1']. apply Z.ltb_lt in E1, E1'.
          split; [apply Forall_cons; split; [split; cbn; lia | exact Hord]|].
          rewrite total_cons, a_left_cons, b_left_cons.
          unfold weight. cbn [fst snd]. repeat split; lia.
        - repeat split; try assumption; try lia; now right. }
      destruct Hq1 as (Hord1 & Ht1 & Ha1 & Hb1 & Hc1).
      assert (Hq2 : Forall ordered q2
                    /\ (total q2 <= total queue + 2 * Z.to_nat (ahi - alo))%nat
                    /\ (a_left q2 <= a_left queue + (ahi - alo) - k)%Z
                    /\ (b_left q2 <= b_left queue + (bhi - blo) - k)%Z).
      { subst q2. destruct ((i + k <? ahi)%Z && (j + k <? bhi)%Z) eqn:E2.
        - apply andb_prop in E2 as [E2 E2']. apply Z.ltb_lt in E2, E2'.
          split; [apply Forall_cons; split; [split; cbn; lia | exact Hord1]|].
          rewrite total_cons, a_left_cons, b_left_cons.
          unfold weight. cbn [fst snd].
          repeat split; try lia; destruct Hc1 as [Hc1 | Hc1]; lia.
        - repeat split; try assumption; try lia;
            destruct Hc1 as [Hc1 | Hc1]; lia. }
      destruct Hq2 as (Hord2 & Ht2 & Ha2 & Hb2).
      destruct (IH q2 (acc ++ [(i, j, k)]) Hord2)
        as (blocks & E & H1 & H2 & H3); [lia|].
      exists blocks. rewrite sizes_app in *. unfold size in *.
      cbn [fst snd] in *. repeat split; try assumption; lia.
Qed.

(** [get_matching_blocks] returns: the turns granted to its loop are enough
    for every pair of strings.  The matches take at most as many elements
    as each string has. *)
Lemma blocks_loop_terminates (a b : list ascii) :
  exists blocks,
    blocks_loop a b (chain_b b) (turns a) [(0, len a, 0, len b)%Z] []
    = Some blocks
    /\ (0 <= sizes blocks <= len a)%Z /\ (sizes blocks <= len b)%Z.
Proof.
  destruct (blocks_loop_enough a b (chain_b b) (turns a)
              [(0, len a, 0, len b)%Z] [])
    as (blocks & E & H1 & H2 & H3).
  - apply Forall_cons. split; [|now apply Forall_nil].
    unfold ordered, len. cbn [fst snd]. lia.
  - unfold total, weight, turns, len. cbn [map fold_right fst snd]. lia.
  - exists blocks. unfold a_left, b_left, sizes in *.
    cbn [map fold_right fst snd] in *. repeat split; try assumption; lia.
Qed.

Lemma matches_bounds (a b : list ascii) :
  (0 <= matches a b /\ 2 * matches a b <= len a + len b)%Z.
Proof.
  destruct (blocks_loop_terminates a b) as (blocks & E & H1 & H2).
  unfold matches, get_matching_blocks. rewrite E.
  change (default [] (Some blocks)) with blocks.
  fold (sizes blocks). lia.
Qed.

End difflib_facts.

(** ** Characters and strings *)

Module Char_facts.

Ltac by_cases c :=
  destruct c as [[] [] [] [] [] [] [] []]; vm_compute; try reflexivity;
  try discriminate; auto.

Lemma lower_idem c : Char.lower (Char.lower c) = Char.lower c.
Proof. by_cases c. Qed.

Lemma isspace_lower c : Char.isspace (Char.lower c) = Char.isspace c.
Proof. by_cases c. Qed.

Lemma isword_lower c : Char.isword (Char.lower c) = Char.isword c.
Proof. by_cases c. Qed.

Lemma isword_not_isspace c : Char.isword c = true -> Char.isspace c = false.
Proof. by_cases c. Qed.

End Char_facts.

Module Chars_facts.
Import Chars.

(** *** [lstrip], [rstrip], [strip] *)

(** [lstrip] takes white space away from the front. *)
Lemma lstrip_split (l : list ascii) :
  exists ws, l = ws ++ lstrip l /\ Forall (fun c => Char.isspace c = true) ws.
Proof.
  induction l as [|c l (ws & E & H)]; [now exists []|].
  cbn [lstrip]. destruct (Char.isspace c) eqn:Ec.
  - exists (c :: ws). split; [cbn; congruence | now constructor].
  - now exists [].
Qed.

Lemma lstrip_length (l : list ascii) : (length (lstrip l) <= length l)%nat.
Proof.
  destruct (lstrip_split l) as (ws & E & _).
  rewrite E at 2. rewrite length_app. lia.
Qed.

(** A string that does not begin with white space. *)
Definition head_ok (l : list ascii) : Prop :=
  match l with
  | [] => True
  | c :: _ => Char.isspace c = false
  end.

Lemma lstrip_head_ok (l : list ascii) : head_ok (lstrip l).
Proof.
  induction l as [|c l IH]; [exact I|].
  cbn [lstrip]. destruct (Char.isspace c) eqn:Ec; [exact IH | exact Ec].
Qed.

Lemma lstrip_fixed (l : list ascii) : head_ok l <-> lstrip l = l.
Proof.
  split.
  - destruct l as [|c l]; [reflexivity|]. cbn. now intros ->.
  - intros <-. apply lstrip_head_ok.
Qed.

Lemma rstrip_split (l : list ascii) :
  exists ws, l = rstrip l ++ ws /\ Forall (fun c => Char.isspace c = true) ws.
Proof.
  destruct (lstrip_split (rev l)) as (ws & E & H).
  exists (rev ws). split.
  - unfold rstrip. rewrite <- rev_app_distr, <- E. now rewrite rev_involutive.
  - now apply Forall_rev.
Qed.

Lemma rstrip_fixed (l : list ascii) : head_ok (rev l) <-> rstrip l = l.
Proof.
  unfold rstrip. rewrite lstrip_fixed. split.
  - intros ->. apply rev_involutive.
  - intros E. rewrite <- E at 2. now rewrite rev_involutive.
Qed.

Lemma rstrip_tail_ok (l : list ascii) : head_ok (rev (rstrip l)).
Proof. unfold rstrip. rewrite rev_involutive. apply lstrip_head_ok. Qed.

(** Taking white space from the front leaves the end as it is. *)
Lemma lstrip_tail_ok (l : list ascii) :
  head_ok (rev l) -> head_ok (rev (lstrip l)).
Proof.
  destruct (lstrip_split l) as (ws & E & _). intros H.
  rewrite E, rev_app_distr in H.
  destruct (rev (lstrip l)) as [|x r]; [exact I | exact H].
Qed.

(** A string without white space at either end. *)
Definition trimmed (l : list ascii) : Prop := head_ok l /\ head_ok (rev l).

Lemma strip_trimmed (l : list ascii) : trimmed (strip l).
Proof.
  split; [apply lstrip_head_ok|].
  apply lstrip_tail_ok, rstrip_tail_ok.
Qed.

Lemma strip_fixed (l : list ascii) : trimmed l <-> strip l = l.
Proof.
  split.
  - intros [H1 H2]. unfold strip.
    rewrite (proj1 (rstrip_fixed l) H2). now apply lstrip_fixed.
  - intros <-. apply strip_trimmed.
Qed.

Lemma strip_idem (l : list ascii) : strip (strip l) = strip l.
Proof. apply strip_fixed, strip_trimmed. Qed.

(** [strip] keeps a segment of the string. *)
Lemma strip_split (l : list ascii) :
  exists front back,
    l = front ++ strip l ++ back
    /\ Forall (fun c => Char.isspace c = true) front
    /\ Forall (fun c => Char.isspace c = true) back.
Proof.
  destruct (rstrip_split l) as (back & E1 & H1).
  destruct (lstrip_split (rstrip l)) as (front & E2 & H2).
  exists front, back. unfold strip. split; [|now split].
  rewrite app_assoc, <- E2. exact E1.
Qed.


Lemma strip_Forall (P : ascii -> Prop) (l : list ascii) :
  Forall P l -> Forall P (strip l).
Proof.
  destruct (strip_split l) as (front & back & E & _). intros H.
  rewrite E in H. apply Forall_app in H as [_ H].
  now apply Forall_app in H as [H _].
Qed.

(** *** The two substitutions *)

(** White space is single spaces: a white-space character is a space and
    follows a character that is not white space; [in_run] tells that the
    string comes after white space. *)
Fixpoint tidy (in_run : bool) (l : list ascii) : Prop :=
  match l with
  | [] => True
  | c :: l' =>
      if Char.isspace c
      then in_run = false /\ c = Char.space /\ tidy true l'
      else tidy false l'
  end.

Lemma tidy_weaken (l : list ascii) : tidy true l -> tidy false l.
Proof.
  destruct l as [|c l]; [easy|]. cbn.
  destruct (Char.isspace c); [now intros [? _] | easy].
Qed.

Lemma tidy_sub_spaces_from in_run (l : list ascii) :
  tidy in_run (sub_spaces_from in_run l).
Proof.
  revert in_run. induction l as [|c l IH]; intros in_run; [exact I|].
  cbn [sub_spaces_from]. destruct (Char.isspace c) eqn:Ec.
  - destruct in_run; [apply IH|].
    cbn. repeat split. apply IH.
  - cbn [tidy]. rewrite Ec. apply IH.
Qed.

Lemma sub_spaces_from_fixed in_run (l : list ascii) :
  tidy in_run l -> sub_spaces_from in_run l = l.
Proof.
  revert in_run. induction l as [|c l IH]; intros in_run; [reflexivity|].
  cbn [tidy sub_spaces_from]. destruct (Char.isspace c).
  - intros (-> & -> & H). now rewrite IH.
  - intros H. now rewrite IH.
Qed.

Lemma tidy_app_l in_run (l1 l2 : list ascii) :
  tidy in_run (l1 ++ l2) -> tidy in_run l1.
Proof.
  revert in_run. induction l1 as [|c l1 IH]; intros in_run; [easy|].
  cbn [app tidy]. destruct (Char.isspace c).
  - intros (? & ? & H). repeat split; try assumption. now apply IH in H.
  - apply IH.
Qed.

Lemma tidy_app_r in_run (l1 l2 : list ascii) :
  tidy in_run (l1 ++ l2) -> tidy false l2.
Proof.
  revert in_run. induction l1 as [|c l1 IH]; intros in_run.
  - cbn [app]. destruct in_run; [apply tidy_weaken | easy].
  - cbn [app tidy]. destruct (Char.isspace c).
    + intros (_ & _ & H). now apply IH in H.
    + apply IH.
Qed.

Lemma tidy_strip (l : list ascii) : tidy false l -> tidy false (strip l).
Proof.
  destruct (strip_split l) as (front & back & E & _). intros H.
  rewrite E in H. apply tidy_app_r in H. now apply tidy_app_l in H.
Qed.

Lemma tidy_firstn n (l : list ascii) : tidy false l -> tidy false (firstn n l).
Proof.
  intros H. rewrite <- (firstn_skipn n l) in H. now apply tidy_app_l in H.
Qed.


(** The characters after the two substitutions: word characters and
    spaces. *)
Definition word_or_space (c : ascii) : Prop :=
  Char.isword c = true \/ c = Char.space.

Lemma sub_spaces_from_word_or_space in_run (l : list ascii) :
  Forall word_or_space (sub_spaces_from in_run (sub_special l)).
Proof.
  revert in_run. induction l as [|c l IH]; intros in_run; [constructor|].
  cbn [sub_special map sub_spaces_from]. fold (sub_special l).
  destruct (Char.isword c) eqn:Ew; cbn [orb].
  - rewrite (Char_facts.isword_not_isspace c Ew).
    constructor; [now left | apply IH].
  - destruct (Char.isspace c) eqn:Es.
    + rewrite Es. destruct in_run; [apply IH|].
      constructor; [now right | apply IH].
    + change (Char.isspace Char.space) with true. cbn iota.
      destruct in_run; [apply IH|].
      constructor; [now right | apply IH].
Qed.

Lemma sub_special_fixed (l : list ascii) :
  Forall word_or_space l -> sub_special l = l.
Proof.
  induction 1 as [|c l [Hc | ->] _ IH]; [reflexivity| |];
    cbn [sub_special map]; fold (sub_special l); rewrite IH.
  - now rewrite Hc.
  - reflexivity.
Qed.

(** Characters that [str.lower] keeps. *)
Definition lowered (c : ascii) : Prop := Char.lower c = c.

Lemma lower_lowered (l : list ascii) : Forall lowered (lower l).
Proof.
  induction l as [|c l IH]; constructor; [|exact IH].
  apply Char_facts.lower_idem.
Qed.

Lemma lower_fixed (l : list ascii) : Forall lowered l -> lower l = l.
Proof.
  induction 1 as [|c l Hc _ IH]; [reflexivity|].
  cbn [lower map]. fold (lower l). now rewrite Hc, IH.
Qed.

Lemma sub_special_lowered (l : list ascii) :
  Forall lowered l -> Forall lowered (sub_special l).
Proof.
  induction 1 as [|c l Hc _ IH]; [constructor|].
  cbn [sub_special map]. constructor; [|exact IH].
  now destruct (_ || _).
Qed.

Lemma sub_spaces_from_lowered in_run (l : list ascii) :
  Forall lowered l -> Forall lowered (sub_spaces_from in_run l).
Proof.
  intros H. revert in_run.
  induction H as [|c l Hc _ IH]; intros in_run; [constructor|].
  cbn [sub_spaces_from]. destruct (Char.isspace c).
  - destruct in_run; [apply IH|]. constructor; [reflexivity | apply IH].
  - constructor; [exact Hc | apply IH].
Qed.

Lemma firstn_Forall (P : ascii -> Prop) n (l : list ascii) :
  Forall P l -> Forall P (firstn n l).
Proof.
  intros H. rewrite <- (firstn_skipn n l) in H.
  now apply Forall_app in H as [H _].
Qed.

End Chars_facts.

(** ** The normal form *)

Lemma chars_str (l : list ascii) : Py.chars (Py.str l) = l.
Proof. apply list_ascii_of_string_of_list_ascii. Qed.

Lemma str_chars (s : string) : Py.str (Py.chars s) = s.
Proof. apply string_of_list_ascii_of_string. Qed.

Lemma chars_inj (s t : string) : Py.chars s = Py.chars t -> s = t.
Proof. intros E. rewrite <- (str_chars s), <- (str_chars t). now rewrite E. Qed.

Lemma chars_length (s : string) : length (Py.chars s) = String.length s.
Proof.
  unfold Py.chars. induction s as [|c s IH]; [reflexivity|].
  cbn [list_ascii_of_string length String.length]. now rewrite IH.
Qed.

(** [remove_suffix] on lists of characters. *)
Definition remove_suffix_chars (normalized suffix : list ascii) : list ascii :=
  if Chars.endswith normalized suffix
  then Chars.strip (Chars.slice_to_neg (length suffix) normalized)
  else normalized.

Lemma chars_remove_suffix (normalized suffix : string) :
  Py.chars (remove_suffix normalized suffix)
  = remove_suffix_chars (Py.chars normalized) (Py.chars suffix).
Proof.
  unfold remove_suffix, remove_suffix_chars, Py.endswith.
  destruct (Chars.endswith _ _); [|reflexivity].
  unfold Py.strip, Py.slice_to_neg, Py.lift.
  now rewrite !chars_str, chars_length.
Qed.

Lemma chars_fold_remove_suffix (suffixes : list string) (normalized : string) :
  Py.chars (fold_left remove_suffix suffixes normalized)
  = fold_left remove_suffix_chars (map Py.chars suffixes)
      (Py.chars normalized).
Proof.
  revert normalized.
  induction suffixes as [|suffix suffixes IH]; intros normalized;
    [reflexivity|].
  cbn [fold_left map]. now rewrite IH, chars_remove_suffix.
Qed.

(** The shape of a normal form: characters that [str.lower] keeps, each a
    word character or a space, single spaces only, none at the ends. *)
Definition clean (l : list ascii) : Prop :=
  Forall Chars_facts.lowered l
  /\ Forall Chars_facts.word_or_space l
  /\ Chars_facts.tidy false l
  /\ Chars_facts.trimmed l.

Lemma clean_fixed (l : list ascii) :
  clean l ->
  Chars.lower l = l /\ Chars.strip l = l
  /\ Chars.sub_special l = l /\ Chars.sub_spaces l = l.
Proof.
  intros (H1 & H2 & H3 & H4). refine (conj _ (conj _ (conj _ _))).
  - now apply Chars_facts.lower_fixed.
  - now apply Chars_facts.strip_fixed.
  - now apply Chars_facts.sub_special_fixed.
  - now apply Chars_facts.sub_spaces_from_fixed.
Qed.

Lemma clean_remove_suffix (l suffix : list ascii) :
  clean l -> clean (remove_suffix_chars l suffix).
Proof.
  intros H. unfold remove_suffix_chars.
  destruct (Chars.endswith l suffix); [|exact H].
  destruct H as (H1 & H2 & H3 & H4).
  unfold Chars.slice_to_neg. refine (conj _ (conj _ (conj _ _))).
  - now apply Chars_facts.strip_Forall, Chars_facts.firstn_Forall.
  - now apply Chars_facts.strip_Forall, Chars_facts.firstn_Forall.
  - now apply Chars_facts.tidy_strip, Chars_facts.tidy_firstn.
  - apply Chars_facts.strip_trimmed.
Qed.

Lemma clean_fold_remove_suffix (suffixes : list (list ascii)) (l : list ascii) :
  clean l -> clean (fold_left remove_suffix_chars suffixes l).
Proof.
  revert l. induction suffixes as [|suffix suffixes IH]; intros l H;
    [exact H|].
  cbn [fold_left]. now apply IH, clean_remove_suffix.
Qed.

Lemma lowered_fold_remove_suffix (suffixes : list (list ascii))
    (l : list ascii) :
  Forall Chars_facts.lowered l ->
  Forall Chars_facts.lowered (fold_left remove_suffix_chars suffixes l).
Proof.
  revert l. induction suffixes as [|suffix suffixes IH]; intros l H;
    [exact H|].
  cbn [fold_left]. apply IH. unfold remove_suffix_chars.
  destruct (Chars.endswith l suffix); [|exact H].
  now apply Chars_facts.strip_Forall, Chars_facts.firstn_Forall.
Qed.

(** [normalize_name] on lists of characters. *)
Definition normalize_chars (l : list ascii) : list ascii :=
  match l with
  | [] => []
  | _ =>
      Chars.strip (Chars.sub_spaces (Chars.sub_special
        (fold_left remove_suffix_chars (map Py.chars suffixes_to_remove)
           (Chars.strip (Chars.lower l)))))
  end.

Lemma chars_normalize_name (name : string) :
  Py.chars (normalize_name name) = normalize_chars (Py.chars name).
Proof.
  unfold normalize_name, normalize_chars.
  destruct name as [|c name]; [reflexivity|].
  cbn [Py.falsy String.eqb]. cbn [Py.chars list_ascii_of_string].
  fold (Py.chars name).
  unfold Py.strip, Py.sub_spaces, Py.sub_special, Py.lower, Py.lift.
  rewrite !chars_str, chars_fold_remove_suffix, !chars_str.
  reflexivity.
Qed.

Lemma normalize_chars_clean (l : list ascii) : clean (normalize_chars l).
Proof.
  destruct l as [|c l].
  { refine (conj _ (conj _ (conj _ (conj _ _)))); try constructor; exact I. }
  unfold normalize_chars.
  set (l0 := fold_left _ _ _).
  assert (H0 : Forall Chars_facts.lowered l0).
  { apply lowered_fold_remove_suffix, Chars_facts.strip_Forall,
      Chars_facts.lower_lowered. }
  refine (conj _ (conj _ (conj _ _))).
  - now apply Chars_facts.strip_Forall, Chars_facts.sub_spaces_from_lowered,
      Chars_facts.sub_special_lowered.
  - apply Chars_facts.strip_Forall,
      Chars_facts.sub_spaces_from_word_or_space.
  - apply Chars_facts.tidy_strip, Chars_facts.tidy_sub_spaces_from.
  - apply Chars_facts.strip_trimmed.
Qed.

Lemma normalize_chars_of_clean (l : list ascii) :
  clean l ->
  normalize_chars l
  = fold_left remove_suffix_chars (map Py.chars suffixes_to_remove) l.
Proof.
  intros H. destruct l as [|c l]; [reflexivity|].
  unfold normalize_chars.
  destruct (clean_fixed _ H) as (-> & -> & _).
  destruct (clean_fixed _ (clean_fold_remove_suffix
                             (map Py.chars suffixes_to_remove) _ H))
    as (_ & E2 & E3 & E4).
  now rewrite E3, E4, E2.
Qed.

(** ** Normalizing twice *)

(** A suffix loop in which no suffix matches changes nothing. *)
Lemma fold_remove_suffix_none (suffixes : list string) (normalized : string) :
  (forall suffix, In suffix suffixes ->
                  Py.endswith normalized suffix = false) ->
  fold_left remove_suffix suffixes normalized = normalized.
Proof.
  induction suffixes as [|suffix suffixes IH]; intros H; [reflexivity|].
  cbn [fold_left]. unfold remove_suffix at 2.
  rewrite (H suffix) by now left.
  apply IH. intros s Hs. apply H. now right.
Qed.

(** On a normal form the second call only runs the suffix loop again. *)
Lemma normalize_name_again (name : string) :
  normalize_name (normalize_name name)
  = fold_left remove_suffix suffixes_to_remove (normalize_name name).
Proof.
  apply chars_inj.
  rewrite chars_normalize_name, chars_fold_remove_suffix.
  apply normalize_chars_of_clean.
  rewrite chars_normalize_name. apply normalize_chars_clean.
Qed.

(** The claim C4 fails: the full stop of "A Park." hides the suffix " park"
    from the first call, which returns "a park"; the second call strips
    it. *)
Lemma normalize_name_not_idempotent :
  normalize_name (normalize_name "A Park.") <> normalize_name "A Park.".
Proof. vm_compute. discriminate. Qed.

(** C4, amended: [normalize_name (normalize_name x) = normalize_name x] for
    every [x] whose normal form ends with none of the listed suffixes. *)
Theorem normalize_name_idempotent_without_suffix (x : string) :
  (forall suffix, In suffix suffixes_to_remove ->
                  Py.endswith (normalize_name x) suffix = false) ->
  normalize_name (normalize_name x) = normalize_name x.
Proof.
  intros H. rewrite normalize_name_again.
  now apply fold_remove_suffix_none.
Qed.

Lemma normalize_name_idempotent_without_suffix_witness :
  normalize_name (normalize_name "Playground A")
  = normalize_name "Playground A".
Proof.
  apply (normalize_name_idempotent_without_suffix "Playground A").
  intros suffix Hs. unfold suffixes_to_remove in Hs.
  repeat (destruct Hs as [<- | Hs]; [vm_compute; reflexivity|]).
  destruct Hs.
Defined.

(** ** The suffix loop *)

(** The steps of [normalize_name] that follow [name.lower().strip()]. *)
Definition finish_name (normalized : string) : string :=
  let normalized := fold_left remove_suffix suffixes_to_remove normalized in
  let normalized := Py.sub_special normalized in
  Py.strip (Py.sub_spaces normalized).

Lemma normalize_name_finish (name : string) :
  normalize_name name = finish_name (Py.strip (Py.lower name)).
Proof.
  unfold normalize_name, finish_name.
  destruct (Py.falsy name) eqn:E; [|reflexivity].
  apply falsy_spec in E. subst name. vm_compute. reflexivity.
Qed.

(** Names that are equal up to case and outer white space have the same
    normal form. *)
Lemma normalize_name_lower_strip (name1 name2 : string) :
  Py.strip (Py.lower name1) = Py.strip (Py.lower name2) ->
  normalize_name name1 = normalize_name name2.
Proof. intros E. now rewrite !normalize_name_finish, E. Qed.







(** ** Empty names *)


(** Reading a key of a map after insertions of given keys. *)
Ltac lookup_inserted :=
  repeat (rewrite lookup_insert_ne by discriminate);
  first [apply lookup_insert_eq | reflexivity].




(* ===================================================================== *)
(** * Further properties of the code *)
(* ===================================================================== *)

(** ** What the fuzzy pass returns *)

Module FloatOrder_more.

(** Two numbers that are each the larger side of a valid comparison are
    ordered: when the first is not below the second, it is at least the
    second. *)
Lemma not_ltb_leb (x y a b : float) :
  (a <? x)%float = true -> (b <=? y)%float = true ->
  (y <? x)%float = false -> (x <=? y)%float = true.
Proof.
  rewrite FloatOrder.ltb_cmp, FloatOrder.leb_cmp.
  intros Ha (cb & Hb & _) Hlt.
  destruct (FloatOrder.SFcompare_comparable _ _ _ _ _ _ Ha Hb) as (c & Hc).
  apply FloatOrder.leb_cmp. exists c. split; [exact Hc|].
  intros ->. apply FloatOrder.SFcompare_antisym in Hc. cbn in Hc.
  assert ((y <? x)%float = true) by now apply FloatOrder.ltb_cmp.
  congruence.
Qed.

End FloatOrder_more.

(** A candidate that the fuzzy pass can accept at some point: its score is
    positive, reaches the threshold and is validated. *)
Definition admissible (query : string) (threshold : float)
    (candidate : string) : bool :=
  let score := similarity_score query candidate in
  (0 <? score)%float && (threshold <=? score)%float
  && validated query candidate score.

(** The state of the second loop after the candidates [seen]. *)
Definition fuzzy_invariant (query : string) (threshold : float)
    (seen : list string) (best : Best) : Prop :=
  (0 <=? best.2)%float = true
  /\ match best.1 with
     | None =>
         best.2 = 0%float
         /\ forall x, In x seen -> admissible query threshold x = false
     | Some c =>
         exists before after,
           seen = before ++ c :: after
           /\ best.2 = similarity_score query c
           /\ admissible query threshold c = true
           /\ (forall x, In x before -> admissible query threshold x = true ->
                 (similarity_score query x <? best.2)%float = true)
           /\ (forall x, In x after -> admissible query threshold x = true ->
                 (best.2 <? similarity_score query x)%float = false)
     end.

Lemma consider_cases query threshold best_match best_score candidate score :
  consider query threshold (best_match, best_score) candidate score
  = if (best_score <? score)%float && (threshold <=? score)%float
       && validated query candidate score
    then (Some candidate, score) else (best_match, best_score).
Proof.
  unfold consider.
  destruct (best_score <? score)%float, (threshold <=? score)%float;
    reflexivity.
Qed.

Lemma fuzzy_body_invariant query threshold seen best candidate :
  fuzzy_invariant query threshold seen best ->
  fuzzy_invariant query threshold (seen ++ [candidate])
    (fuzzy_body query threshold best candidate).
Proof.
  destruct best as [m bs]. intros [H0 H]. cbn [fst snd] in H0, H.
  unfold fuzzy_body. rewrite consider_cases.
  set (s := similarity_score query candidate).
  destruct ((bs <? s)%float && (threshold <=? s)%float
            && validated query candidate s) eqn:Acc.
  - (* the candidate becomes the best *)
    apply andb_prop in Acc as [Acc V]. apply andb_prop in Acc as [Lt Ge].
    assert (Pos : (0 <? s)%float = true)
      by (eapply FloatOrder.leb_ltb_trans; eassumption).
    split; cbn [fst snd]; [now apply FloatOrder.ltb_leb|].
    exists seen, []. split; [reflexivity|]. split; [reflexivity|].
    split; [unfold admissible; fold s; now rewrite Pos, Ge, V|].
    split; [|intros x []].
    intros x Hx Ax. destruct m as [c|].
    + destruct H as (before & after & -> & -> & Ac & Hb & Ha).
      apply in_app_or in Hx as [Hx | [<- | Hx]].
      * eapply FloatOrder.ltb_trans; [now apply Hb | exact Lt].
      * exact Lt.
      * eapply FloatOrder.leb_ltb_trans; [|exact Lt].
        apply (FloatOrder_more.not_ltb_leb _ _ 0%float 0%float).
        -- unfold admissible in Ax.
           apply andb_prop in Ax as [Ax _]. now apply andb_prop in Ax as [Ax _].
        -- exact H0.
        -- now apply Ha.
    + destruct H as [_ H]. rewrite (H x Hx) in Ax. discriminate.
  - (* the best is kept *)
    split; [exact H0|]. cbn [fst snd].
    destruct m as [c|].
    + destruct H as (before & after & -> & E & Ac & Hb & Ha).
      exists before, (after ++ [candidate]).
      split; [now rewrite <- app_assoc|]. split; [exact E|].
      split; [exact Ac|]. split; [exact Hb|].
      intros x Hx Ax. apply in_app_or in Hx as [Hx | [<- | []]];
        [now apply Ha|].
      fold s. unfold admissible in Ax. fold s in Ax.
      apply andb_prop in Ax as [Ax V]. apply andb_prop in Ax as [_ Ge].
      rewrite Ge, V, !andb_true_r in Acc. exact Acc.
    + destruct H as [-> H]. split; [reflexivity|].
      intros x Hx. apply in_app_or in Hx as [Hx | [<- | []]];
        [now apply H|].
      unfold admissible. fold s. exact Acc.
Qed.

Lemma fuzzy_fold_invariant query threshold pool seen best :
  fuzzy_invariant query threshold seen best ->
  fuzzy_invariant query threshold (seen ++ pool)
    (fold_left (fuzzy_body query threshold) pool best).
Proof.
  revert seen best. induction pool as [|c pool IH]; intros seen best H.
  - now rewrite app_nil_r.
  - cbn [fold_left].
    replace (seen ++ c :: pool) with ((seen ++ [c]) ++ pool)
      by now rewrite <- app_assoc.
    now apply IH, fuzzy_body_invariant.
Qed.

Lemma fuzzy_pass_invariant query pool threshold :
  fuzzy_invariant query threshold pool
    (Logged.value (fuzzy_pass query pool threshold)).
Proof.
  rewrite fuzzy_pass_value.
  apply (fuzzy_fold_invariant query threshold pool []).
  split; [reflexivity|]. cbn. split; [reflexivity | intros x []].
Qed.

(** A positive score between names with different normal forms is a ratio
    of the sequence matcher for names that share a word. *)
Lemma positive_score_shares_a_word (name1 name2 : string) :
  (0 <? similarity_score name1 name2)%float = true ->
  normalize_name name1 <> normalize_name name2 ->
  (1 <= shared_words name1 name2)%nat
  /\ similarity_score name1 name2
     = difflib.ratio (normalize_name name1) (normalize_name name2).
Proof.
  unfold similarity_score, shared_words. intros Pos Hne.
  destruct (Py.falsy _ || Py.falsy _); [discriminate Pos|].
  destruct (String.eqb _ _) eqn:E; [now apply String.eqb_eq in E|].
  destruct (size _ =? 0)%nat eqn:Z; [discriminate Pos|].
  apply Nat.eqb_neq in Z. split; [lia | reflexivity].
Qed.

(** X1: a match returned by [find_best_match] is a name of the pool.
    Either its normal form is the one of the query and the score is 1.0,
    or no name of the pool has the normal form of the query and the
    candidate passed the tests of the fuzzy pass: its score is the one of
    [similarity_score], positive and at least the threshold, the two names
    share a word, and they share two words unless the score exceeds
    0.99. *)
Theorem find_best_match_some
    (query : string) (pool : list string) (threshold : float)
    (candidate : string) (score : float) :
  find_best_match query pool threshold = (Some candidate, score) ->
  In candidate pool
  /\ ((normalize_name candidate = normalize_name query /\ score = 1%float)
      \/ ((forall x, In x pool -> normalize_name x <> normalize_name query)
          /\ score = similarity_score query candidate
          /\ (0 <? score)%float = true
          /\ (threshold <=? score)%float = true
          /\ (1 <= shared_words query candidate)%nat
          /\ ((2 <= shared_words query candidate)%nat
              \/ (0.99 <? score)%float = true))).
Proof.
  unfold find_best_match, find_best_match_logged.
  destruct (exact_pass (normalize_name query) pool) as [c|] eqn:E.
  - intros [= <- <-].
    assert (H : exists x, In x pool
                          /\ normalize_name x = normalize_name query).
    { clear -E. induction pool as [|x pool IH]; [discriminate|].
      cbn [exact_pass] in E.
      destruct (String.eqb _ _) eqn:Ex.
      - injection E as <-. apply String.eqb_eq in Ex.
        exists x. split; [now left | now symmetry].
      - destruct (IH E) as (y & Hy & Ey). exists y. split; [now right|easy]. }
    destruct (exact_pass_first _ _ H) as (before & c' & after & -> & Hc & _ & E').
    rewrite E in E'. injection E' as <-.
    split; [apply in_or_app; right; now left|]. left. now split.
  - intros R. pose proof (fuzzy_pass_invariant query pool threshold) as [_ I].
    rewrite R in I. cbn [fst snd] in I.
    destruct I as (before & after & -> & -> & A & _ & _).
    split; [apply in_or_app; right; now left|]. right.
    assert (Hne : forall x, In x (before ++ candidate :: after) ->
                            normalize_name x <> normalize_name query)
      by exact (exact_pass_none _ _ E).
    unfold admissible in A.
    apply andb_prop in A as [A V]. apply andb_prop in A as [Pos Ge].
    split; [exact Hne|]. split; [reflexivity|].
    split; [exact Pos|]. split; [exact Ge|].
    split.
    + apply positive_score_shares_a_word; [exact Pos|].
      intros Eq. apply (Hne candidate); [|now symmetry].
      apply in_or_app; right; now left.
    + unfold validated in V. fold (shared_words query candidate) in V.
      apply orb_prop in V as [V | V]; [left; now apply Nat.leb_le | now right].
Qed.

Lemma find_best_match_some_witness :
  In "Fort Greene Park West"
     ["Diana Ross Park"; "Fort Greene Park West"; "Fort Greene East"]
  /\ (2 <= shared_words "Fort Greene Park East" "Fort Greene Park West")%nat.
Proof.
  destruct (find_best_match_some "Fort Greene Park East"
              ["Diana Ross Park"; "Fort Greene Park West"; "Fort Greene East"]
              0.8%float "Fort Greene Park West"
              (similarity_score "Fort Greene Park East"
                 "Fort Greene Park West"))
    as [Hin H].
  - vm_compute. reflexivity.
  - split; [exact Hin|]. vm_compute. lia.
Defined.

(** X2: when [find_best_match] returns no match, the score is 0.0, no name
    of the pool has the normal form of the query and no name passes the
    tests of the fuzzy pass; every name of the pool was scored, once and
    in the order of the pool. *)
Theorem find_best_match_none
    (query : string) (pool : list string) (threshold : float)
    (score : float) :
  find_best_match query pool threshold = (None, score) ->
  score = 0%float
  /\ (forall x, In x pool ->
        normalize_name x <> normalize_name query
        /\ admissible query threshold x = false)
  /\ Logged.log (find_best_match_logged query pool threshold)
     = map (fun candidate => (query, candidate)) pool.
Proof.
  unfold find_best_match, find_best_match_logged.
  destruct (exact_pass (normalize_name query) pool) as [c|] eqn:E;
    [discriminate|].
  intros R. pose proof (fuzzy_pass_invariant query pool threshold) as [_ I].
  rewrite R in I. cbn [fst snd] in I. destruct I as [-> I].
  split; [reflexivity|]. split.
  - intros x Hx. split; [now apply (exact_pass_none _ _ E) | now apply I].
  - unfold fuzzy_pass. now rewrite for_each_fuzzy_step.
Qed.

Lemma find_best_match_none_witness :
  admissible "Dan Ross Playground" 0.8%float "Diana Ross Park" = false.
Proof.
  apply (find_best_match_none "Dan Ross Playground" ["Diana Ross Park"]
           0.8%float 0%float).
  - vm_compute. reflexivity.
  - now left.
Defined.

(** X3: in the fuzzy pass the first name with the best score wins: every
    acceptable name before the returned one has a strictly lower score, and
    no acceptable name after it has a higher one. *)
Theorem find_best_match_first_best
    (query : string) (pool : list string) (threshold : float)
    (candidate : string) (score : float) :
  (forall x, In x pool -> normalize_name x <> normalize_name query) ->
  find_best_match query pool threshold = (Some candidate, score) ->
  exists before after,
    pool = before ++ candidate :: after
    /\ (forall x, In x before -> admissible query threshold x = true ->
          (similarity_score query x <? score)%float = true)
    /\ (forall x, In x after -> admissible query threshold x = true ->
          (score <? similarity_score query x)%float = false).
Proof.
  intros Hne. unfold find_best_match, find_best_match_logged.
  destruct (exact_pass (normalize_name query) pool) as [c|] eqn:E.
  - exfalso.
    assert (H : exists x, In x pool
                          /\ normalize_name x = normalize_name query).
    { clear -E. induction pool as [|x pool IH]; [discriminate|].
      cbn [exact_pass] in E.
      destruct (String.eqb _ _) eqn:Ex.
      - apply String.eqb_eq in Ex. exists x. split; [now left | easy].
      - destruct (IH E) as (y & Hy & Ey). exists y. split; [now right|easy]. }
    destruct H as (x & Hx & Ex). now apply (Hne x).
  - intros R. pose proof (fuzzy_pass_invariant query pool threshold) as [_ I].
    rewrite R in I. cbn [fst snd] in I.
    destruct I as (before & after & -> & _ & _ & Hb & Ha).
    now exists before, after.
Qed.

Lemma find_best_match_first_best_witness :
  exists before after,
    ["Fort Greene Park West"; "Fort Greene Park Nest"; "Fort Greene East"]
    = before ++ "Fort Greene Park West" :: after
    /\ (forall x, In x before ->
          admissible "Fort Greene Park East" 0.8%float x = true ->
          (similarity_score "Fort Greene Park East" x
           <? similarity_score "Fort Greene Park East"
                "Fort Greene Park West")%float = true)
    /\ (forall x, In x after ->
          admissible "Fort Greene Park East" 0.8%float x = true ->
          (similarity_score "Fort Greene Park East"
             "Fort Greene Park West"
           <? similarity_score "Fort Greene Park East" x)%float = false).
Proof.
  apply (find_best_match_first_best "Fort Greene Park East"
           ["Fort Greene Park West"; "Fort Greene Park Nest";
            "Fort Greene East"] 0.8%float).
  - intros x Hx.
    repeat (destruct Hx as [<- | Hx];
            [apply String.eqb_neq; vm_compute; reflexivity|]).
    destruct Hx.
  - vm_compute. reflexivity.
Defined.

(** ** The shape of a normal form *)

Lemma tidy_no_double in_run (front rest : list ascii) (c1 c2 : ascii) :
  Chars_facts.tidy in_run (front ++ c1 :: c2 :: rest) ->
  Char.isspace c1 = true -> Char.isspace c2 = false.
Proof.
  revert in_run. induction front as [|c front IH]; intros in_run.
  - cbn [app Chars_facts.tidy]. intros H E1. rewrite E1 in H.
    destruct H as (_ & _ & H). destruct (Char.isspace c2); [|reflexivity].
    now destruct H.
  - cbn [app Chars_facts.tidy]. destruct (Char.isspace c).
    + intros (_ & _ & H). exact (IH _ H).
    + apply IH.
Qed.

(** X4: the result of [normalize_name] is made of word characters that
    [str.lower] leaves unchanged and of spaces; it neither starts nor ends
    with white space and has no two white-space characters in a row. *)
Theorem normalize_name_shape (name : string) :
  let n := Py.chars (normalize_name name) in
  Forall (fun c => Char.lower c = c
                   /\ (Char.isword c = true \/ c = " "%char)) n
  /\ (forall c rest, n = c :: rest -> Char.isspace c = false)
  /\ (forall front c, n = front ++ [c] -> Char.isspace c = false)
  /\ (forall front c1 c2 rest,
        n = front ++ c1 :: c2 :: rest ->
        Char.isspace c1 = true -> Char.isspace c2 = false).
Proof.
  cbn zeta. rewrite chars_normalize_name.
  destruct (normalize_chars_clean (Py.chars name)) as (H1 & H2 & H3 & H4 & H5).
  split; [|split; [|split]].
  - apply Forall_forall. intros c Hc. split.
    + now apply (proj1 (Forall_forall _ _) H1).
    + now apply (proj1 (Forall_forall _ _) H2).
  - intros c rest E. rewrite E in H4. exact H4.
  - intros front c E. rewrite E, rev_app_distr in H5. exact H5.
  - intros front c1 c2 rest E. rewrite E in H3.
    exact (tidy_no_double _ _ _ _ _ H3).
Qed.

(** X5: none of the cleaning steps changes a result of [normalize_name];
    normalizing it again only runs the suffix loop on it. *)
Theorem normalize_name_steps_fixed (name : string) :
  let n := normalize_name name in
  Py.lower n = n /\ Py.strip n = n
  /\ Py.sub_special n = n /\ Py.sub_spaces n = n
  /\ normalize_name n = fold_left remove_suffix suffixes_to_remove n.
Proof.
  cbn zeta.
  assert (H : clean (Py.chars (normalize_name name)))
    by (rewrite chars_normalize_name; apply normalize_chars_clean).
  destruct (clean_fixed _ H) as (E1 & E2 & E3 & E4).
  unfold Py.lower, Py.strip, Py.sub_special, Py.sub_spaces, Py.lift.
  rewrite E1, E2, E3, E4, str_chars.
  repeat (split; [reflexivity|]).
  apply chars_inj.
  rewrite chars_normalize_name, chars_fold_remove_suffix.
  now apply normalize_chars_of_clean.
Qed.

(** ** The length of a normal form *)




(** ** Names without a word character *)

Lemma endswith_split (l suffix : list ascii) :
  Chars.endswith l suffix = true -> exists front, l = front ++ suffix.
Proof.
  unfold Chars.endswith, Chars.eqb. intros H.
  apply andb_prop in H as [_ H]. apply bool_decide_eq_true in H.
  exists (firstn (length l - length suffix) l).
  rewrite <- H at 2. symmetry. apply firstn_skipn.
Qed.

Lemma fold_remove_suffix_chars_no_word (suffixes : list (list ascii))
    (l : list ascii) :
  Forall (fun suffix => existsb Char.isword suffix = true) suffixes ->
  Forall (fun c => Char.isword c = false) l ->
  fold_left remove_suffix_chars suffixes l = l.
Proof.
  intros Hs Hl. induction Hs as [|suffix suffixes Hw _ IH]; [reflexivity|].
  cbn [fold_left]. unfold remove_suffix_chars at 2.
  destruct (Chars.endswith l suffix) eqn:E; [|exact IH].
  exfalso. apply endswith_split in E as [front ->].
  apply Forall_app in Hl as [_ Hl].
  apply existsb_exists in Hw as (c & Hc & Hw).
  rewrite (proj1 (Forall_forall _ _) Hl c) in Hw; [discriminate|].
  now apply list_elem_of_In.
Qed.

Lemma sub_spaces_from_all_space (l : list ascii) :
  Forall (fun c => Char.isspace c = true) l ->
  Chars.sub_spaces_from true l = []
  /\ Chars.strip (Chars.sub_spaces_from false l) = [].
Proof.
  induction 1 as [|c l Hc _ [IH1 IH2]]; [now split|].
  cbn [Chars.sub_spaces_from]. rewrite Hc, IH1. now split.
Qed.

(** X7: a name without any word character, such as "..." or " - ", has
    the empty normal form. *)
Theorem normalize_name_no_word (name : string) :
  Forall (fun c => Char.isword c = false) (Py.chars name) ->
  normalize_name name = "".
Proof.
  intros H. apply chars_inj. rewrite chars_normalize_name.
  destruct (Py.chars name) as [|c0 l0] eqn:E; [reflexivity|].
  rewrite <- E in *. clear E c0 l0.
  unfold normalize_chars.
  destruct (Py.chars name) as [|c0 l0] eqn:E; [reflexivity|].
  rewrite <- E in *. clear E c0 l0.
  assert (H0 : Forall (fun c => Char.isword c = false)
                 (Chars.strip (Chars.lower (Py.chars name)))).
  { apply Chars_facts.strip_Forall. unfold Chars.lower.
    apply Forall_map. eapply Forall_impl; [exact H|].
    intros c Hc. cbn. now rewrite Char_facts.isword_lower. }
  rewrite fold_remove_suffix_chars_no_word; [| |exact H0].
  - apply sub_spaces_from_all_space. unfold Chars.sub_special.
    apply Forall_map. eapply Forall_impl; [exact H0|].
    intros c Hc. cbn. rewrite Hc. cbn [orb].
    now destruct (Char.isspace c) eqn:Es.
  - unfold suffixes_to_remove.
    repeat (apply List.Forall_cons; [vm_compute; reflexivity|]).
    apply List.Forall_nil.
Qed.

Lemma normalize_name_no_word_witness : normalize_name " - ... ! " = "".
Proof.
  apply (normalize_name_no_word " - ... ! ").
  repeat (apply List.Forall_cons; [vm_compute; reflexivity|]).
  apply List.Forall_nil.
Defined.

(** ** The score of two names that share a word *)

Lemma words_empty : words "" = ∅.
Proof. reflexivity. Qed.

(** X8: for two names with different normal forms that share a word,
    [similarity_score] is the ratio [2.0 * matches / length] of the
    sequence matcher, where [length], the number of characters of the two
    normal forms, is positive and the number of matched characters lies
    between 0 and half of it.  The loop of [get_matching_blocks] that
    counts them ends within the turns that the model grants it. *)
Theorem similarity_score_ratio (name1 name2 : string) :
  normalize_name name1 <> normalize_name name2 ->
  (1 <= shared_words name1 name2)%nat ->
  let a := Py.chars (normalize_name name1) in
  let b := Py.chars (normalize_name name2) in
  similarity_score name1 name2
  = (2 * difflib.float_of_int (difflib.matches a b)
     / difflib.float_of_int (difflib.len a + difflib.len b))%float
  /\ (0 <= difflib.matches a b)%Z
  /\ (2 * difflib.matches a b <= difflib.len a + difflib.len b)%Z
  /\ (0 < difflib.len a + difflib.len b)%Z
  /\ exists blocks,
       difflib.blocks_loop a b (difflib.chain_b b) (difflib.turns a)
         [(0, difflib.len a, 0, difflib.len b)%Z] [] = Some blocks.
Proof.
  intros Hne Hshared a b.
  assert (Ha : normalize_name name1 <> "").
  { intros E. unfold shared_words in Hshared. rewrite E, words_empty in Hshared.
    rewrite (left_absorb_L ∅ (∩)), size_empty in Hshared. lia. }
  assert (Hb : normalize_name name2 <> "").
  { intros E. unfold shared_words in Hshared. rewrite E, words_empty in Hshared.
    rewrite (right_absorb_L ∅ (∩)), size_empty in Hshared. lia. }
  assert (Hpos : (0 < difflib.len a + difflib.len b)%Z).
  { subst a b. unfold difflib.len.
    destruct (normalize_name name1) as [|c s]; [congruence|].
    cbn [Py.chars list_ascii_of_string length]. lia. }
  destruct (difflib_facts.matches_bounds a b) as [M0 M1].
  destruct (difflib_facts.blocks_loop_terminates a b) as (blocks & T & _).
  split; [|split; [exact M0|]; split; [exact M1|]; split; [exact Hpos|];
           exists blocks; exact T].
  unfold similarity_score.
  destruct (Py.falsy (normalize_name name1)) eqn:F1;
    [now apply falsy_spec in F1|].
  destruct (Py.falsy (normalize_name name2)) eqn:F2;
    [now apply falsy_spec in F2|].
  cbn [orb].
  destruct (String.eqb _ _) eqn:E; [now apply String.eqb_eq in E|].
  fold (shared_words name1 name2).
  destruct (shared_words name1 name2 =? 0)%nat eqn:Z;
    [apply Nat.eqb_eq in Z; lia|].
  unfold difflib.ratio, difflib.calculate_ratio.
  fold (Py.chars (normalize_name name1)) (Py.chars (normalize_name name2)).
  fold a b.
  destruct (difflib.len a + difflib.len b =? 0)%Z eqn:L;
    [apply Z.eqb_eq in L; lia | reflexivity].
Qed.

Lemma similarity_score_ratio_witness :
  similarity_score "Dan Ross Playground" "Diana Ross Park"
  = (2 * difflib.float_of_int
           (difflib.matches (Py.chars "dan ross") (Py.chars "diana ross"))
     / difflib.float_of_int 18)%float.
Proof.
  apply (similarity_score_ratio "Dan Ross Playground" "Diana Ross Park").
  - apply String.eqb_neq. vm_compute. reflexivity.
  - vm_compute. lia.
Defined.

(** ** The first loop of the matching *)

Lemma exact_loop_some (playground_name : string) (names : list string)
    (c : string) :
  exact_loop playground_name names = Some c ->
  In c names
  /\ Py.strip (Py.lower playground_name) = Py.strip (Py.lower c).
Proof.
  induction names as [|x names IH]; [discriminate|].
  cbn [exact_loop]. destruct (String.eqb _ _) eqn:E.
  - intros [= <-]. apply String.eqb_eq in E. split; [now left | exact E].
  - intros H. destruct (IH H) as [Hin Hc]. split; [now right | exact Hc].
Qed.

(** X9: a name found by the first loop of [main], which compares the
    names in lower case without outer white space, has the normal form of
    the playground name; [find_best_match] would return a match with the
    score 1.0 for it, found by its exact pass. *)
Theorem exact_loop_normalized (playground_name : string)
    (names : list string) (c : string) (threshold : float) :
  exact_loop playground_name names = Some c ->
  In c names
  /\ normalize_name c = normalize_name playground_name
  /\ exists c',
       find_best_match_logged playground_name names threshold
       = (Some c', 1%float, [])
       /\ normalize_name c' = normalize_name playground_name.
Proof.
  intros H. destruct (exact_loop_some _ _ _ H) as [Hin Hc].
  assert (Hn : normalize_name c = normalize_name playground_name)
    by (apply normalize_name_lower_strip; now symmetry).
  split; [exact Hin|]. split; [exact Hn|].
  destruct (exact_pass_first (normalize_name playground_name) names)
    as (before & c' & after & _ & Hc' & _ & E); [now exists c|].
  exists c'. split; [|exact Hc'].
  unfold find_best_match_logged. now rewrite E.
Qed.

Lemma exact_loop_normalized_witness :
  normalize_name "Asser Levy Park" = normalize_name "  ASSER LEVY PARK ".
Proof.
  apply (exact_loop_normalized "  ASSER LEVY PARK "
           ["Fort Greene Park"; "Asser Levy Park"] "Asser Levy Park"
           0.8%float).
  vm_compute. reflexivity.
Defined.

(** ** The pool of sprinkler names *)

(** [sprinkler.get('subpropertyname', '').strip()] *)
Definition sprinkler_name (sprinkler : gmap string json) : result string :=
  strip_method (get sprinkler "subpropertyname" (JStr "")).

(** The attributes that [add_sprinkler] stores for a sprinkler. *)
Definition info_of (sprinkler : gmap string json) : gmap string json :=
  {[ "status" := get sprinkler "status" (JStr "");
     "system" := get sprinkler "system" (JStr "");
     "district" := get sprinkler "district" (JStr "");
     "featuretype" := get sprinkler "featuretype" (JStr "") ]}.

Lemma add_sprinkler_cases (pool : Pool) (sprinkler : gmap string json) :
  add_sprinkler pool sprinkler
  = match sprinkler_name sprinkler with
    | Raise e => Raise e
    | Ok name =>
        if Py.falsy name then Ok pool
        else Ok ({[name]} ∪ pool.1, <[name := info_of sprinkler]> pool.2)
    end.
Proof.
  destruct pool as [names lookup]. unfold add_sprinkler, sprinkler_name.
  destruct (strip_method _); reflexivity.
Qed.

Lemma rfold_app {A S} (body : S -> A -> result S) (l1 l2 : list A) (st : S) :
  rfold body (l1 ++ l2) st = rbind (rfold body l1 st) (rfold body l2).
Proof.
  revert st. induction l1 as [|x l1 IH]; intros st; [reflexivity|].
  cbn [app rfold]. destruct (body st x); cbn [rbind]; [apply IH | reflexivity].
Qed.

Lemma py_strip_idem (s : string) : Py.strip (Py.strip s) = Py.strip s.
Proof.
  unfold Py.strip, Py.lift. now rewrite chars_str, Chars_facts.strip_idem.
Qed.

Lemma strip_method_ok (v : json) (name : string) :
  strip_method v = Ok name -> Py.strip name = name.
Proof. destruct v; try discriminate. intros [= <-]. apply py_strip_idem. Qed.

(** What holds of the pool after the records [seen]. *)
Definition pool_of (seen : list (gmap string json)) (pool : Pool) : Prop :=
  dom pool.2 = pool.1
  /\ (forall name,
        name ∈ pool.1
        <-> name <> ""
            /\ exists s, In s seen /\ sprinkler_name s = Ok name)
  /\ (forall name info,
        pool.2 !! name = Some info ->
        exists s, In s seen /\ sprinkler_name s = Ok name /\ info = info_of s).

Lemma add_sprinkler_pool_of seen pool sprinkler pool' :
  pool_of seen pool ->
  add_sprinkler pool sprinkler = Ok pool' ->
  pool_of (seen ++ [sprinkler]) pool'.
Proof.
  intros (Hdom & Hnames & Hinfo). rewrite add_sprinkler_cases.
  destruct (sprinkler_name sprinkler) as [name|e] eqn:N; [|discriminate].
  destruct (Py.falsy name) eqn:F; intros [= <-]; unfold pool_of.
  - apply falsy_spec in F. subst name.
    split; [exact Hdom|]. split.
    + intros name. rewrite Hnames. split.
      * intros (Hne & s & Hs & E). split; [exact Hne|].
        exists s. split; [apply in_or_app; now left | exact E].
      * intros (Hne & s & Hs & E). split; [exact Hne|].
        apply in_app_or in Hs as [Hs | [<- | []]]; [now exists s|].
        congruence.
    + intros name info Hl. destruct (Hinfo name info Hl) as (s & Hs & E & I).
      exists s. split; [apply in_or_app; now left | now split].
  - assert (Hne : name <> "")
      by (intros ->; cbn in F; discriminate).
    cbn [fst snd]. split; [|split].
    + rewrite dom_insert_L. now rewrite Hdom.
    + intros x. rewrite elem_of_union, elem_of_singleton, Hnames. split.
      * intros [-> | (Hx & s & Hs & E)].
        -- split; [exact Hne|]. exists sprinkler.
           split; [apply in_or_app; right; now left | exact N].
        -- split; [exact Hx|]. exists s.
           split; [apply in_or_app; now left | exact E].
      * intros (Hx & s & Hs & E).
        apply in_app_or in Hs as [Hs | [<- | []]].
        -- right. split; [exact Hx|]. now exists s.
        -- left. congruence.
    + intros x info. rewrite lookup_insert. case_decide as D.
      * subst x. intros [= <-]. exists sprinkler.
        split; [apply in_or_app; right; now left | now split].
      * intros Hl. destruct (Hinfo x info Hl) as (s & Hs & E & I).
        exists s. split; [apply in_or_app; now left | now split].
Qed.

Lemma rfold_add_sprinkler_pool_of seen data pool pool' :
  pool_of seen pool ->
  rfold add_sprinkler data pool = Ok pool' ->
  pool_of (seen ++ data) pool'.
Proof.
  revert seen pool. induction data as [|s data IH]; intros seen pool H.
  - cbn [rfold]. intros [= <-]. now rewrite app_nil_r.
  - cbn [rfold]. destruct (add_sprinkler pool s) as [pool1|e] eqn:E;
      [|discriminate].
    cbn [rbind]. intros R.
    replace (seen ++ s :: data) with ((seen ++ [s]) ++ data)
      by now rewrite <- app_assoc.
    eapply IH; [|exact R]. eapply add_sprinkler_pool_of; eassumption.
Qed.

Lemma pool_of_empty : pool_of [] (∅, ∅).
Proof.
  split; [apply dom_empty_L|]. split.
  - intros name. split; [intros H; now apply not_elem_of_empty in H|].
    now intros (_ & s & [] & _).
  - intros name info H. cbn [snd] in H. now rewrite lookup_empty in H.
Qed.

(** X10: the pool that [main] builds from the sprinkler records.  Its
    names are the non-empty stripped values of [subpropertyname], each one
    is a key of [sprinkler_lookup] (so that [sprinkler_lookup[name]] never
    raises [KeyError] for a name of the pool), and the attributes stored
    for a name are those of a record carrying that name. *)
Theorem sprinkler_pool_built (sprinkler_data : list (gmap string json))
    (pool : Pool) :
  rfold add_sprinkler sprinkler_data (∅, ∅) = Ok pool ->
  dom pool.2 = pool.1
  /\ (forall name,
        name ∈ pool.1
        <-> name <> ""
            /\ exists s, In s sprinkler_data /\ sprinkler_name s = Ok name)
  /\ (forall name,
        name ∈ pool.1 ->
        Py.strip name = name
        /\ exists s,
             In s sprinkler_data /\ sprinkler_name s = Ok name
             /\ pool.2 !! name = Some (info_of s)).
Proof.
  intros R.
  destruct (rfold_add_sprinkler_pool_of [] sprinkler_data (∅, ∅) pool
              pool_of_empty R) as (Hdom & Hnames & Hinfo).
  cbn [app] in *. split; [exact Hdom|]. split; [exact Hnames|].
  intros name Hname. split.
  - apply Hnames in Hname as (_ & s & _ & E).
    unfold sprinkler_name in E. now apply strip_method_ok in E.
  - assert (Hd : name ∈ dom pool.2) by now rewrite Hdom.
    apply elem_of_dom in Hd as [info Hl].
    destruct (Hinfo name info Hl) as (s & Hs & E & ->).
    now exists s.
Qed.

Lemma sprinkler_pool_built_witness :
  "Asser Levy Park" ∈ ({["Asser Levy Park"]} : gset string)
  <-> "Asser Levy Park" <> ""
      /\ exists s, In s [asser_levy_sprinkler]
                   /\ sprinkler_name s = Ok "Asser Levy Park".
Proof.
  destruct (sprinkler_pool_built [asser_levy_sprinkler]
              ({["Asser Levy Park"]},
               {["Asser Levy Park" :=
                   {[ "status" := JStr "Active"; "system" := JStr "";
                      "district" := JStr ""; "featuretype" := JStr "" ]}]}))
    as (_ & H & _).
  - reflexivity.
  - exact (H "Asser Levy Park").
Defined.

(** A record with another name leaves the attributes of a name alone. *)
Lemma add_sprinkler_other pool sprinkler pool' name :
  add_sprinkler pool sprinkler = Ok pool' ->
  sprinkler_name sprinkler <> Ok name ->
  pool'.2 !! name = pool.2 !! name.
Proof.
  rewrite add_sprinkler_cases.
  destruct (sprinkler_name sprinkler) as [n|e]; [|discriminate].
  destruct (Py.falsy n); intros [= <-] Hne; [reflexivity|].
  cbn [snd]. apply lookup_insert_ne. congruence.
Qed.

Lemma rfold_add_sprinkler_other data pool pool' name :
  rfold add_sprinkler data pool = Ok pool' ->
  (forall s, In s data -> sprinkler_name s <> Ok name) ->
  pool'.2 !! name = pool.2 !! name.
Proof.
  revert pool. induction data as [|s data IH]; intros pool.
  - cbn [rfold]. now intros [= <-].
  - cbn [rfold]. destruct (add_sprinkler pool s) as [pool1|e] eqn:E;
      [|discriminate].
    cbn [rbind]. intros R H.
    rewrite (IH pool1 R) by (intros x Hx; apply H; now right).
    eapply add_sprinkler_other; [exact E|]. apply H. now left.
Qed.

(** X11: when several sprinkler records have the same stripped name, the
    attributes kept for that name are those of the last of them. *)
Theorem sprinkler_lookup_last_wins
    (before after : list (gmap string json)) (sprinkler : gmap string json)
    (name : string) (pool : Pool) :
  sprinkler_name sprinkler = Ok name ->
  name <> "" ->
  (forall s, In s after -> sprinkler_name s <> Ok name) ->
  rfold add_sprinkler (before ++ sprinkler :: after) (∅, ∅) = Ok pool ->
  pool.2 !! name = Some (info_of sprinkler)
  /\ name ∈ pool.1.
Proof.
  intros N Hne Hafter R. split.
  - rewrite rfold_app in R.
    destruct (rfold add_sprinkler before (∅, ∅)) as [pool0|e];
      [|discriminate].
    cbn [rbind rfold] in R. rewrite add_sprinkler_cases, N in R.
    destruct (Py.falsy name) eqn:F; [now apply falsy_spec in F|].
    cbn [rbind] in R.
    rewrite (rfold_add_sprinkler_other _ _ _ name R Hafter).
    cbn [snd]. apply lookup_insert_eq.
  - destruct (rfold_add_sprinkler_pool_of [] _ (∅, ∅) pool pool_of_empty R)
      as (_ & Hnames & _).
    apply Hnames. split; [exact Hne|].
    exists sprinkler. split; [|exact N].
    cbn [app]. apply in_or_app. right. now left.
Qed.

Lemma sprinkler_lookup_last_wins_witness :
  ({["Asser Levy Park" := info_of asser_levy_sprinkler]}
   : gmap string (gmap string json)) !! "Asser Levy Park"
  = Some (info_of asser_levy_sprinkler)
  /\ "Asser Levy Park" ∈ ({["Asser Levy Park"]} : gset string).
Proof.
  refine (sprinkler_lookup_last_wins
            [{[ "subpropertyname" := JStr " Asser Levy Park ";
                "status" := JStr "Closed" ]}]
            [] asser_levy_sprinkler "Asser Levy Park"
            ({["Asser Levy Park"]},
             {["Asser Levy Park" := info_of asser_levy_sprinkler]})
            _ _ _ _).
  - reflexivity.
  - discriminate.
  - intros s [].
  - reflexivity.
Defined.

(** ** The matching of one playground *)

(** The four keys that [main] adds to a playground. *)
Definition sprinkler_keys : list string :=
  ["has_sprinkler"; "sprinkler_status"; "sprinkler_system";
   "sprinkler_district"].

(** A pool in which every name has its three attributes. *)
Definition pool_complete (pool : Pool) : Prop :=
  forall name,
    name ∈ pool.1 ->
    exists info status system district,
      pool.2 !! name = Some info
      /\ info !! "status" = Some status
      /\ info !! "system" = Some system
      /\ info !! "district" = Some district.

Lemma pool_of_complete seen pool : pool_of seen pool -> pool_complete pool.
Proof.
  intros (Hdom & _ & Hinfo) name Hname.
  assert (Hd : name ∈ dom pool.2) by now rewrite Hdom.
  apply elem_of_dom in Hd as [info Hl].
  destruct (Hinfo name info Hl) as (s & _ & _ & ->).
  exists (info_of s), (get s "status" (JStr "")),
    (get s "system" (JStr "")), (get s "district" (JStr "")).
  split; [exact Hl|]. unfold info_of.
  split; [|split]; lookup_inserted.
Qed.

Lemma with_sprinkler_found lookup name enhanced info status system district :
  lookup !! name = Some info ->
  info !! "status" = Some status ->
  info !! "system" = Some system ->
  info !! "district" = Some district ->
  with_sprinkler lookup name enhanced
  = Ok (<["sprinkler_district" := district]>
          (<["sprinkler_system" := system]>
             (<["sprinkler_status" := status]>
                (<["has_sprinkler" := JBool true]> enhanced)))).
Proof.
  intros H1 H2 H3 H4. unfold with_sprinkler, subscript.
  rewrite H1. cbn [rbind]. rewrite H2. cbn [rbind]. rewrite H3. cbn [rbind].
  now rewrite H4.
Qed.

Lemma iteration_in (iteration : gset string -> list string)
    (X : gset string) (c : string) :
  (forall X, iteration X ≡ₚ elements X) -> In c (iteration X) -> c ∈ X.
Proof.
  intros H Hc. apply elem_of_elements. rewrite <- (H X).
  now apply list_elem_of_In.
Qed.

Lemma truthy_some (o : option string) (c : string) :
  truthy o = Some c -> o = Some c.
Proof.
  destruct o as [s|]; [|discriminate]. cbn [truthy].
  destruct (Py.falsy s); [discriminate | exact id].
Qed.

Lemma exact_pass_in (norm : string) (pool : list string) (c : string) :
  exact_pass norm pool = Some c -> In c pool.
Proof.
  induction pool as [|x pool IH]; [discriminate|]. cbn [exact_pass].
  destruct (String.eqb _ _); [intros [= <-]; now left|].
  intros H. right. now apply IH.
Qed.

Lemma find_best_match_in_pool query pool threshold c score :
  find_best_match query pool threshold = (Some c, score) -> In c pool.
Proof.
  unfold find_best_match, find_best_match_logged.
  destruct (exact_pass (normalize_name query) pool) as [c'|] eqn:E.
  - intros [= <- _]. now apply exact_pass_in in E.
  - intros R. pose proof (fuzzy_pass_invariant query pool threshold) as [_ I].
    rewrite R in I. cbn [fst snd] in I.
    destruct I as (before & after & -> & _).
    apply in_or_app. right. now left.
Qed.

(** What [process_playground] returns for a playground with a [str]
    name. *)
Lemma process_playground_result
    (iteration : gset string -> list string) (pool : Pool) (m : Merge)
    (playground : gmap string json) (name : string) :
  (forall X, iteration X ≡ₚ elements X) ->
  pool_complete pool ->
  strip_method (get playground "Name" (JStr "")) = Ok name ->
  exists m' e (b : bool),
    process_playground iteration pool m playground = Ok m'
    /\ enhanced_playgrounds m' = enhanced_playgrounds m ++ [e]
    /\ (matched_count m <= matched_count m')%nat
    /\ (fuzzy_matched_count m <= fuzzy_matched_count m')%nat
    /\ (matched_count m' + fuzzy_matched_count m'
        = matched_count m + fuzzy_matched_count m + (if b then 1 else 0))%nat
    /\ e !! "has_sprinkler" = Some (JBool b)
    /\ (b = false ->
        e !! "sprinkler_status" = Some JNone
        /\ e !! "sprinkler_system" = Some JNone
        /\ e !! "sprinkler_district" = Some JNone)
    /\ (forall key, ~ In key sprinkler_keys -> e !! key = playground !! key).
Proof.
  intros Hiter Hpool Hname. destruct pool as [names lookup].
  unfold process_playground. rewrite Hname. cbn [rbind].
  set (e0 := <["sprinkler_district" := JNone]>
               (<["sprinkler_system" := JNone]>
                  (<["sprinkler_status" := JNone]>
                     (<["has_sprinkler" := JBool false]> playground)))).
  assert (Hmiss : exists m' e (b : bool),
            Ok (append_playground m e0) = Ok m'
            /\ enhanced_playgrounds m' = enhanced_playgrounds m ++ [e]
            /\ (matched_count m <= matched_count m')%nat
            /\ (fuzzy_matched_count m <= fuzzy_matched_count m')%nat
            /\ (matched_count m' + fuzzy_matched_count m'
                = matched_count m + fuzzy_matched_count m
                  + (if b then 1 else 0))%nat
            /\ e !! "has_sprinkler" = Some (JBool b)
            /\ (b = false ->
                e !! "sprinkler_status" = Some JNone
                /\ e !! "sprinkler_system" = Some JNone
                /\ e !! "sprinkler_district" = Some JNone)
            /\ (forall key, ~ In key sprinkler_keys ->
                            e !! key = playground !! key)).
  { exists (append_playground m e0), e0, false.
    split; [reflexivity|]. split; [reflexivity|].
    cbn [append_playground matched_count fuzzy_matched_count].
    split; [lia|]. split; [lia|]. split; [lia|].
    subst e0. split; [lookup_inserted|].
    split; [intros _; repeat split; lookup_inserted|].
    intros key Hkey. unfold sprinkler_keys in Hkey.
    rewrite !lookup_insert_ne; [reflexivity|..];
      intros <-; apply Hkey; cbn; auto. }
  assert (Hhit : forall c mc fc,
            c ∈ names ->
            (matched_count m <= mc)%nat ->
            (fuzzy_matched_count m <= fc)%nat ->
            (mc + fc = matched_count m + fuzzy_matched_count m + 1)%nat ->
            exists m' e (b : bool),
              (let! enhanced_playground := with_sprinkler lookup c e0 in
               Ok (append_playground
                     {| matched_count := mc;
                        fuzzy_matched_count := fc;
                        enhanced_playgrounds := enhanced_playgrounds m |}
                     enhanced_playground)) = Ok m'
              /\ enhanced_playgrounds m' = enhanced_playgrounds m ++ [e]
              /\ (matched_count m <= matched_count m')%nat
              /\ (fuzzy_matched_count m <= fuzzy_matched_count m')%nat
              /\ (matched_count m' + fuzzy_matched_count m'
                  = matched_count m + fuzzy_matched_count m
                    + (if b then 1 else 0))%nat
              /\ e !! "has_sprinkler" = Some (JBool b)
              /\ (b = false ->
                  e !! "sprinkler_status" = Some JNone
                  /\ e !! "sprinkler_system" = Some JNone
                  /\ e !! "sprinkler_district" = Some JNone)
              /\ (forall key, ~ In key sprinkler_keys ->
                              e !! key = playground !! key)).
  { intros c mc fc Hc Hmc Hfc Hsum.
    destruct (Hpool c Hc) as (info & st & sy & di & H1 & H2 & H3 & H4).
    cbn [snd] in H1.
    rewrite (with_sprinkler_found _ _ _ _ _ _ _ H1 H2 H3 H4). cbn [rbind].
    do 2 eexists. exists true.
    split; [reflexivity|]. split; [reflexivity|].
    cbn [append_playground matched_count fuzzy_matched_count].
    split; [lia|]. split; [lia|]. split; [lia|].
    split; [lookup_inserted|]. split; [discriminate|].
    intros key Hkey. unfold sprinkler_keys in Hkey. subst e0.
    rewrite !lookup_insert_ne; [reflexivity|..];
      intros <-; apply Hkey; cbn; auto. }
  destruct (Py.falsy name); [exact Hmiss|].
  destruct (truthy (exact_loop name (iteration names))) as [c|] eqn:Ex.
  - apply truthy_some, exact_loop_some in Ex as [Hin _].
    apply Hhit; [|lia..].
    now apply (iteration_in iteration).
  - destruct (find_best_match name (iteration names) 0.8%float)
      as [best score] eqn:Fb.
    destruct (truthy best) as [c|] eqn:Tb; [|exact Hmiss].
    apply truthy_some in Tb. subst best.
    apply find_best_match_in_pool in Fb.
    apply Hhit; [|lia..].
    now apply (iteration_in iteration).
Qed.

(** ** The whole matching *)

(** A key that is absent or holds a [str]. *)
Definition str_or_absent (d : gmap string json) (key : string) : Prop :=
  d !! key = None \/ exists s, d !! key = Some (JStr s).

(** A key that holds a value without the method [strip]. *)
Definition not_str (d : gmap string json) (key : string) : Prop :=
  exists v, d !! key = Some v /\ forall s, v <> JStr s.

Lemma str_or_absent_strip d key :
  str_or_absent d key ->
  exists name, strip_method (get d key (JStr "")) = Ok name.
Proof.
  unfold get. intros [-> | [s ->]]; cbn [strip_method]; eauto.
Qed.

Lemma not_str_strip d key :
  not_str d key -> strip_method (get d key (JStr "")) = Raise AttributeError.
Proof.
  unfold get. intros (v & -> & Hv).
  destruct v; try reflexivity. now destruct (Hv s).
Qed.

(** [p['has_sprinkler']] read as a truth value. *)
Definition has_sprinkler (e : gmap string json) : bool :=
  match e !! "has_sprinkler" with
  | Some (JBool true) => true
  | _ => false
  end.

(** A playground of the output keeps the fields of its source. *)
Definition extends (playground enhanced : gmap string json) : Prop :=
  forall key, ~ In key sprinkler_keys -> enhanced !! key = playground !! key.

Lemma rfold_add_sprinkler_ok data pool :
  Forall (fun s => str_or_absent s "subpropertyname") data ->
  exists pool', rfold add_sprinkler data pool = Ok pool'.
Proof.
  intros H. revert pool.
  induction H as [|s data Hs _ IH]; intros pool; [now exists pool|].
  cbn [rfold]. rewrite add_sprinkler_cases. unfold sprinkler_name.
  destruct (str_or_absent_strip _ _ Hs) as [name ->].
  destruct (Py.falsy name); cbn [rbind]; apply IH.
Qed.

Lemma rfold_process_playground_ok
    (iteration : gset string -> list string) (pool : Pool)
    (data : list (gmap string json)) (m : Merge) :
  (forall X, iteration X ≡ₚ elements X) ->
  pool_complete pool ->
  Forall (fun p => str_or_absent p "Name") data ->
  exists m' es,
    rfold (process_playground iteration pool) data m = Ok m'
    /\ enhanced_playgrounds m' = enhanced_playgrounds m ++ es
    /\ Forall2 extends data es
    /\ (matched_count m <= matched_count m')%nat
    /\ (fuzzy_matched_count m <= fuzzy_matched_count m')%nat
    /\ (matched_count m' + fuzzy_matched_count m'
        = matched_count m + fuzzy_matched_count m
          + length (List.filter has_sprinkler es))%nat.
Proof.
  intros Hiter Hpool H. revert m.
  induction H as [|p data Hp _ IH]; intros m.
  - exists m, []. cbn. rewrite app_nil_r.
    repeat split; try constructor; lia.
  - cbn [rfold]. destruct (str_or_absent_strip _ _ Hp) as [name Hname].
    destruct (process_playground_result iteration pool m p name
                Hiter Hpool Hname)
      as (m1 & e & b & -> & E1 & Hm & Hf & Hsum & Hb & _ & Hext).
    cbn [rbind].
    destruct (IH m1) as (m' & es & -> & E' & Hall & Hm' & Hf' & Hsum').
    exists m', (e :: es). split; [reflexivity|].
    split; [rewrite E', E1; now rewrite <- app_assoc|].
    split; [now constructor|]. split; [lia|]. split; [lia|].
    cbn [List.filter]. unfold has_sprinkler at 1. rewrite Hb.
    destruct b; cbn [length]; lia.
Qed.

(** X12: a playground whose [Name] is absent or a [str] never makes the
    body of the loop raise, provided every name of the pool has its
    attributes.  The playground is appended to the output with its own
    fields unchanged and [has_sprinkler] set to a boolean; exactly one of
    the two counters grows by one when it is [True], none when it is
    [False], in which case the three attributes are [None]. *)
Theorem process_playground_total
    (iteration : gset string -> list string) (pool : Pool) (m : Merge)
    (playground : gmap string json) :
  (forall X, iteration X ≡ₚ elements X) ->
  pool_complete pool ->
  str_or_absent playground "Name" ->
  exists m' e (b : bool),
    process_playground iteration pool m playground = Ok m'
    /\ enhanced_playgrounds m' = enhanced_playgrounds m ++ [e]
    /\ (matched_count m <= matched_count m')%nat
    /\ (fuzzy_matched_count m <= fuzzy_matched_count m')%nat
    /\ (matched_count m' + fuzzy_matched_count m'
        = matched_count m + fuzzy_matched_count m + (if b then 1 else 0))%nat
    /\ e !! "has_sprinkler" = Some (JBool b)
    /\ (b = false ->
        e !! "sprinkler_status" = Some JNone
        /\ e !! "sprinkler_system" = Some JNone
        /\ e !! "sprinkler_district" = Some JNone)
    /\ extends playground e.
Proof.
  intros Hiter Hpool Hp.
  destruct (str_or_absent_strip _ _ Hp) as [name Hname].
  exact (process_playground_result iteration pool m playground name
           Hiter Hpool Hname).
Qed.

Lemma process_playground_total_witness :
  exists m' e (b : bool),
    process_playground elements (∅, ∅)
      {| matched_count := 0; fuzzy_matched_count := 0;
         enhanced_playgrounds := [] |} asser_levy_playground = Ok m'
    /\ enhanced_playgrounds m' = [e]
    /\ e !! "has_sprinkler" = Some (JBool b).
Proof.
  destruct (process_playground_total elements (∅, ∅)
              {| matched_count := 0; fuzzy_matched_count := 0;
                 enhanced_playgrounds := [] |} asser_levy_playground)
    as (m' & e & b & E & H1 & _ & _ & _ & H2 & _).
  - intros X. reflexivity.
  - intros name Hname. now apply not_elem_of_empty in Hname.
  - right. exists "Asser Levy Playground". reflexivity.
  - exists m', e, b. repeat split; assumption.
Defined.

(** The matching of well-formed collections. *)
Lemma merge_result
    (iteration : gset string -> list string)
    (sprinkler_data playground_data : list (gmap string json)) :
  (forall X, iteration X ≡ₚ elements X) ->
  Forall (fun s => str_or_absent s "subpropertyname") sprinkler_data ->
  Forall (fun p => str_or_absent p "Name") playground_data ->
  exists m,
    merge iteration sprinkler_data playground_data = Ok m
    /\ Forall2 extends playground_data (enhanced_playgrounds m)
    /\ length (enhanced_playgrounds m) = length playground_data
    /\ (matched_count m + fuzzy_matched_count m
        = length (List.filter has_sprinkler (enhanced_playgrounds m)))%nat
    /\ (matched_count m + fuzzy_matched_count m
        <= length playground_data)%nat.
Proof.
  intros Hiter Hs Hp. unfold merge.
  destruct (rfold_add_sprinkler_ok sprinkler_data (∅, ∅) Hs) as [pool R].
  rewrite R. cbn [rbind].
  assert (Hpool : pool_complete pool).
  { eapply pool_of_complete.
    exact (rfold_add_sprinkler_pool_of [] _ _ _ pool_of_empty R). }
  destruct (rfold_process_playground_ok iteration pool playground_data
              {| matched_count := 0; fuzzy_matched_count := 0;
                 enhanced_playgrounds := [] |} Hiter Hpool Hp)
    as (m & es & -> & E & Hall & _ & _ & Hsum).
  cbn [enhanced_playgrounds matched_count fuzzy_matched_count app] in E, Hsum.
  exists m. rewrite E. split; [reflexivity|]. split; [exact Hall|].
  assert (Hlen : length es = length playground_data)
    by (symmetry; eapply Forall2_length; exact Hall).
  split; [exact Hlen|]. split; [lia|].
  rewrite Hsum, <- Hlen. cbn. apply List.filter_length_le.
Qed.

(** X13: when every [subpropertyname] and every [Name] is absent or a
    [str], the matching raises nothing.  The output has one playground
    for each playground of the input, in the same order and with the
    fields of its source, and the two counters add up to the number of
    playgrounds of the output whose [has_sprinkler] is [True]. *)
Theorem merge_total
    (iteration : gset string -> list string)
    (sprinkler_data playground_data : list (gmap string json)) :
  (forall X, iteration X ≡ₚ elements X) ->
  Forall (fun s => str_or_absent s "subpropertyname") sprinkler_data ->
  Forall (fun p => str_or_absent p "Name") playground_data ->
  exists m,
    merge iteration sprinkler_data playground_data = Ok m
    /\ Forall2 extends playground_data (enhanced_playgrounds m)
    /\ length (enhanced_playgrounds m) = length playground_data
    /\ (matched_count m + fuzzy_matched_count m
        = length (List.filter has_sprinkler (enhanced_playgrounds m)))%nat
    /\ (matched_count m + fuzzy_matched_count m
        <= length playground_data)%nat.
Proof. exact (merge_result iteration sprinkler_data playground_data). Qed.

Lemma merge_total_witness :
  exists m,
    merge elements [asser_levy_sprinkler] [asser_levy_playground] = Ok m
    /\ length (enhanced_playgrounds m) = 1%nat.
Proof.
  destruct (merge_total elements [asser_levy_sprinkler]
              [asser_levy_playground])
    as (m & E & _ & H & _).
  - intros X. reflexivity.
  - constructor; [|constructor].
    right. exists "Asser Levy Park". reflexivity.
  - constructor; [|constructor].
    right. exists "Asser Levy Playground". reflexivity.
  - exists m. split; assumption.
Defined.

(** X14: a [Name], or a [subpropertyname], that is present without being
    a [str] (null, a number, a list) makes the matching raise
    [AttributeError] at the call of [strip]; the playgrounds matched
    before it are lost with it. *)
Theorem merge_attribute_error
    (iteration : gset string -> list string)
    (sprinkler_data playground_data : list (gmap string json)) :
  (forall X, iteration X ≡ₚ elements X) ->
  (exists before bad after,
      sprinkler_data = before ++ bad :: after
      /\ Forall (fun s => str_or_absent s "subpropertyname") before
      /\ not_str bad "subpropertyname")
  \/ (Forall (fun s => str_or_absent s "subpropertyname") sprinkler_data
      /\ exists before bad after,
           playground_data = before ++ bad :: after
           /\ Forall (fun p => str_or_absent p "Name") before
           /\ not_str bad "Name") ->
  merge iteration sprinkler_data playground_data = Raise AttributeError.
Proof.
  intros Hiter [(before & bad & after & -> & Hb & Hbad)
               | (Hs & before & bad & after & -> & Hb & Hbad)]; unfold merge.
  - rewrite rfold_app.
    destruct (rfold_add_sprinkler_ok before (∅, ∅) Hb) as [pool ->].
    cbn [rbind rfold]. rewrite add_sprinkler_cases. unfold sprinkler_name.
    now rewrite (not_str_strip _ _ Hbad).
  - destruct (rfold_add_sprinkler_ok sprinkler_data (∅, ∅) Hs) as [pool R].
    rewrite R. cbn [rbind].
    assert (Hpool : pool_complete pool).
    { eapply pool_of_complete.
      exact (rfold_add_sprinkler_pool_of [] _ _ _ pool_of_empty R). }
    rewrite rfold_app.
    destruct (rfold_process_playground_ok iteration pool before
                {| matched_count := 0; fuzzy_matched_count := 0;
                   enhanced_playgrounds := [] |} Hiter Hpool Hb)
      as (m & es & -> & _).
    cbn [rbind rfold]. destruct pool as [names lookup].
    unfold process_playground. now rewrite (not_str_strip _ _ Hbad).
Qed.

Lemma merge_attribute_error_witness :
  merge elements [asser_levy_sprinkler]
    [asser_levy_playground; {[ "Name" := JNone ]}]
  = Raise AttributeError.
Proof.
  apply (merge_attribute_error elements).
  - intros X. reflexivity.
  - right. split.
    + constructor; [|constructor].
      right. exists "Asser Levy Park". reflexivity.
    + exists [asser_levy_playground], {[ "Name" := JNone ]}, [].
      split; [reflexivity|]. split.
      * constructor; [|constructor].
        right. exists "Asser Levy Playground". reflexivity.
      * exists JNone. split; [reflexivity | discriminate].
Defined.

(** ** Where the attributes of a match come from *)

(** X15: when the body of the loop counts a match, the playground that it
    appends has [has_sprinkler] [True] and the status, system and district
    stored in [sprinkler_lookup] for a name of the pool.  That name equals
    the name of the playground up to case and outer white space when the
    match is counted in [matched_count]; it is the name returned by
    [find_best_match] at the threshold 0.8 when the match is counted in
    [fuzzy_matched_count]. *)
Theorem process_playground_match
    (iteration : gset string -> list string) (pool : Pool) (m m' : Merge)
    (playground : gmap string json) (name : string) :
  (forall X, iteration X ≡ₚ elements X) ->
  pool_complete pool ->
  strip_method (get playground "Name" (JStr "")) = Ok name ->
  process_playground iteration pool m playground = Ok m' ->
  (matched_count m' + fuzzy_matched_count m'
   = matched_count m + fuzzy_matched_count m + 1)%nat ->
  exists c info e,
    c ∈ pool.1
    /\ pool.2 !! c = Some info
    /\ enhanced_playgrounds m' = enhanced_playgrounds m ++ [e]
    /\ e !! "has_sprinkler" = Some (JBool true)
    /\ e !! "sprinkler_status" = info !! "status"
    /\ e !! "sprinkler_system" = info !! "system"
    /\ e !! "sprinkler_district" = info !! "district"
    /\ ((matched_count m' = matched_count m + 1
         /\ fuzzy_matched_count m' = fuzzy_matched_count m
         /\ Py.strip (Py.lower name) = Py.strip (Py.lower c))%nat
        \/ (matched_count m' = matched_count m
            /\ fuzzy_matched_count m' = fuzzy_matched_count m + 1
            /\ truthy (exact_loop name (iteration pool.1)) = None
            /\ exists score,
                 find_best_match name (iteration pool.1) 0.8%float
                 = (Some c, score))%nat).
Proof.
  intros Hiter Hpool Hname. destruct pool as [names lookup].
  unfold process_playground. rewrite Hname. cbn [rbind fst snd].
  set (e0 := <["sprinkler_district" := JNone]>
               (<["sprinkler_system" := JNone]>
                  (<["sprinkler_status" := JNone]>
                     (<["has_sprinkler" := JBool false]> playground)))).
  assert (Hmiss : Ok (append_playground m e0) = Ok m' ->
                  (matched_count m' + fuzzy_matched_count m'
                   = matched_count m + fuzzy_matched_count m + 1)%nat ->
                  False).
  { intros [= <-]. cbn. lia. }
  destruct (Py.falsy name); [intros R S; destruct (Hmiss R S)|].
  destruct (truthy (exact_loop name (iteration names))) as [c|] eqn:Ex.
  - apply truthy_some in Ex.
    destruct (exact_loop_some _ _ _ Ex) as [Hin Hc].
    assert (Hcn : c ∈ names) by now apply (iteration_in iteration).
    destruct (Hpool c Hcn) as (info & st & sy & di & H1 & H2 & H3 & H4).
    cbn [snd] in H1.
    rewrite (with_sprinkler_found _ _ _ _ _ _ _ H1 H2 H3 H4). cbn [rbind].
    intros [= <-] _. do 3 eexists.
    split; [exact Hcn|]. split; [exact H1|]. split; [reflexivity|].
    split; [lookup_inserted|].
    split; [rewrite H2; lookup_inserted|].
    split; [rewrite H3; lookup_inserted|].
    split; [rewrite H4; lookup_inserted|].
    left. cbn. split; [lia|]. split; [reflexivity | exact Hc].
  - destruct (find_best_match name (iteration names) 0.8%float)
      as [best score] eqn:Fb.
    destruct (truthy best) as [c|] eqn:Tb;
      [|intros R S; destruct (Hmiss R S)].
    apply truthy_some in Tb. subst best.
    pose proof (find_best_match_in_pool _ _ _ _ _ Fb) as Hin.
    assert (Hcn : c ∈ names) by now apply (iteration_in iteration).
    destruct (Hpool c Hcn) as (info & st & sy & di & H1 & H2 & H3 & H4).
    cbn [snd] in H1.
    rewrite (with_sprinkler_found _ _ _ _ _ _ _ H1 H2 H3 H4). cbn [rbind].
    intros [= <-] _. do 3 eexists.
    split; [exact Hcn|]. split; [exact H1|]. split; [reflexivity|].
    split; [lookup_inserted|].
    split; [rewrite H2; lookup_inserted|].
    split; [rewrite H3; lookup_inserted|].
    split; [rewrite H4; lookup_inserted|].
    right. cbn. split; [lia|]. split; [lia|]. split; [reflexivity|].
    now exists score.
Qed.

Lemma process_playground_match_witness :
  exists (c : string) (info e : gmap string json),
    c ∈ ({["Asser Levy Park"]} : gset string)
    /\ ({["Asser Levy Park" := info_of asser_levy_sprinkler]}
        : gmap string (gmap string json)) !! c = Some info
    /\ e !! "sprinkler_status" = info !! "status".
Proof.
  destruct (process_playground_match elements
              ({["Asser Levy Park"]},
               {["Asser Levy Park" := info_of asser_levy_sprinkler]})
              {| matched_count := 0; fuzzy_matched_count := 0;
                 enhanced_playgrounds := [] |}
              {| matched_count := 0; fuzzy_matched_count := 1;
                 enhanced_playgrounds :=
                   [<["sprinkler_district" := JStr ""]>
                      (<["sprinkler_system" := JStr ""]>
                         (<["sprinkler_status" := JStr "Active"]>
                            (<["has_sprinkler" := JBool true]>
                               (<["sprinkler_district" := JNone]>
                                  (<["sprinkler_system" := JNone]>
                                     (<["sprinkler_status" := JNone]>
                                        (<["has_sprinkler" := JBool false]>
                                           asser_levy_playground)))))))] |}
              asser_levy_playground "Asser Levy Playground")
    as (c & info & e & H1 & H2 & _ & _ & H3 & _).
  - intros X. reflexivity.
  - intros name Hname. cbn [fst snd] in *.
    apply elem_of_singleton in Hname. subst name.
    exists (info_of asser_levy_sprinkler), (JStr "Active"), (JStr ""),
      (JStr "").
    split; [reflexivity|]. split; [reflexivity|].
    split; reflexivity.
  - reflexivity.
  - unfold process_playground.
    replace (get asser_levy_playground "Name" (JStr ""))
      with (JStr "Asser Levy Playground") by reflexivity.
    cbn [strip_method rbind].
    replace (Py.strip "Asser Levy Playground")
      with "Asser Levy Playground" by (vm_compute; reflexivity).
    replace (Py.falsy "Asser Levy Playground")
      with false by (vm_compute; reflexivity).
    rewrite (elements_singleton "Asser Levy Park").
    replace (exact_loop "Asser Levy Playground" ["Asser Levy Park"])
      with (@None string) by (vm_compute; reflexivity).
    replace (find_best_match "Asser Levy Playground" ["Asser Levy Park"]
               0.8%float)
      with (Some "Asser Levy Park", 1%float) by (vm_compute; reflexivity).
    cbn [truthy].
    replace (Py.falsy "Asser Levy Park")
      with false by (vm_compute; reflexivity).
    reflexivity.
  - reflexivity.
  - exists c, info, e. split; [exact H1|]. split; [exact H2 | exact H3].
Defined.

(** ** The statistics *)

(** The division of the match rate is the one exception of the report. *)
Inductive report_exn : Type :=
| ZeroDivisionError.

(** The numbers that [main] prints once the output is written. *)
Record Statistics : Type := {
  total_playgrounds : Z;
  exact_matches : Z;
  fuzzy_matches : Z;
  total_with_sprinklers : Z;
  no_sprinkler_data : Z;
  match_rate : float
}.

(** The last lines of [main] that compute.  [/] between two [int] is the
    quotient rounded to a [float], which is the division of the two
    numbers as [float] for counts below 2^53; it raises when the divisor
    is 0. *)
Definition statistics (playground_data : list (gmap string json)) (m : Merge)
  : report_exn + Statistics :=
  let total := Z.of_nat (length playground_data) in
  let matched_count := Z.of_nat (matched_count m) in
  let fuzzy_matched_count := Z.of_nat (fuzzy_matched_count m) in
  if (total =? 0)%Z then inl ZeroDivisionError
  else
    inr {| total_playgrounds := total;
           exact_matches := matched_count;
           fuzzy_matches := fuzzy_matched_count;
           total_with_sprinklers := matched_count + fuzzy_matched_count;
           no_sprinkler_data := total - matched_count - fuzzy_matched_count;
           match_rate :=
             (difflib.float_of_int (matched_count + fuzzy_matched_count)
              / difflib.float_of_int total * 100)%float |}.

(** X16: on well-formed collections the count of playgrounds without
    sprinkler data that [main] prints is never negative, and the printed
    counts add up to the number of playgrounds.  With an empty list of
    playgrounds the matching succeeds with an empty output, and the match
    rate then raises [ZeroDivisionError]. *)
Theorem statistics_after_merge
    (iteration : gset string -> list string)
    (sprinkler_data playground_data : list (gmap string json)) :
  (forall X, iteration X ≡ₚ elements X) ->
  Forall (fun s => str_or_absent s "subpropertyname") sprinkler_data ->
  Forall (fun p => str_or_absent p "Name") playground_data ->
  exists m,
    merge iteration sprinkler_data playground_data = Ok m
    /\ (playground_data = [] ->
        enhanced_playgrounds m = []
        /\ statistics playground_data m = inl ZeroDivisionError)
    /\ (playground_data <> [] ->
        exists st,
          statistics playground_data m = inr st
          /\ (0 <= no_sprinkler_data st <= total_playgrounds st)%Z
          /\ (total_with_sprinklers st + no_sprinkler_data st
              = total_playgrounds st)%Z
          /\ total_playgrounds st = Z.of_nat (length playground_data)).
Proof.
  intros Hiter Hs Hp.
  destruct (merge_result iteration sprinkler_data playground_data Hiter Hs Hp)
    as (m & E & _ & Hlen & _ & Hle).
  exists m. split; [exact E|]. split.
  - intros ->. split.
    + destruct (enhanced_playgrounds m); [reflexivity | discriminate Hlen].
    + reflexivity.
  - intros Hne. unfold statistics.
    destruct (Z.of_nat (length playground_data) =? 0)%Z eqn:Z0.
    + apply Z.eqb_eq in Z0. destruct playground_data; [congruence|].
      cbn [length] in Z0. lia.
    + eexists. split; [reflexivity|].
      cbn [no_sprinkler_data total_playgrounds total_with_sprinklers].
      repeat split; lia.
Qed.

Lemma statistics_after_merge_witness :
  exists m,
    merge elements [asser_levy_sprinkler] [] = Ok m
    /\ statistics [] m = inl ZeroDivisionError.
Proof.
  destruct (statistics_after_merge elements [asser_levy_sprinkler] [])
    as (m & E & H & _).
  - intros X. reflexivity.
  - constructor; [|constructor].
    right. exists "Asser Levy Park". reflexivity.
  - constructor.
  - exists m. split; [exact E|]. now apply H.
Defined.

(** ** A listed suffix after a normal form *)

Lemma endswith_app_short (b s s' : list ascii) :
  (length s' <= length s)%nat ->
  Chars.endswith (b ++ s) s' = Chars.endswith s s'.
Proof.
  intros H. unfold Chars.endswith. rewrite length_app.
  replace (length s' <=? length b + length s)%nat with true
    by (symmetry; apply Nat.leb_le; lia).
  replace (length s' <=? length s)%nat with true
    by (symmetry; apply Nat.leb_le; lia).
  rewrite skipn_app, skipn_all2 by lia.
  now replace (length b + length s - length s' - length b)%nat
    with (length s - length s')%nat by lia.
Qed.

Lemma endswith_app_long (b s s' : list ascii) :
  (length s <= length s')%nat ->
  Chars.endswith s' s = false ->
  Chars.endswith (b ++ s) s' = false.
Proof.
  intros H F. destruct (Chars.endswith (b ++ s) s') eqn:E; [|reflexivity].
  apply endswith_split in E as [front E].
  assert (X : s = skipn (length s' - length s) s').
  { assert (Y : skipn (length b) (b ++ s)
                = skipn (length b) (front ++ s')) by now rewrite E.
    rewrite skipn_app, skipn_all, Nat.sub_diag in Y.
    change (skipn 0 s) with s in Y. cbn [app] in Y.
    assert (L : (length b + length s = length front + length s')%nat)
      by (rewrite <- !length_app; now rewrite E).
    assert (Z : skipn (length b) front = [])
      by (apply skipn_all2; lia).
    rewrite skipn_app, Z in Y. cbn [app] in Y.
    replace (length s' - length s)%nat with (length b - length front)%nat
      by lia.
    exact Y. }
  unfold Chars.endswith, Chars.eqb in F.
  replace (length s <=? length s')%nat with true in F
    by (symmetry; apply Nat.leb_le; lia).
  cbn [andb] in F. apply bool_decide_eq_false in F. now destruct F.
Qed.

Lemma slice_to_neg_app (b s s' : list ascii) :
  (length s' <= length s)%nat ->
  Chars.slice_to_neg (length s') (b ++ s)
  = b ++ firstn (length s - length s') s.
Proof.
  intros H. unfold Chars.slice_to_neg.
  rewrite length_app, firstn_app, firstn_all2 by lia.
  f_equal. f_equal. lia.
Qed.

(** The tail [t] of a string [b ++ t] does not end with white space. *)
Definition last_ok (t : list ascii) : bool :=
  match rev t with
  | [] => false
  | c :: _ => negb (Char.isspace c)
  end.

(** The suffix loop on [b ++ tail], followed on [tail] alone: the tail
    that the loop leaves after [b], for a [b] that ends with none of the
    suffixes; [None] when [tail] does not decide. *)
Fixpoint loop_tail (suffixes : list (list ascii)) (tail : list ascii)
  : option (list ascii) :=
  match suffixes with
  | [] => Some tail
  | suffix :: rest =>
      if (length suffix <=? length tail)%nat
      then
        if Chars.endswith tail suffix
        then
          let tail' := firstn (length tail - length suffix) tail in
          match tail' with
          | [] => loop_tail rest []
          | _ => if last_ok tail' then loop_tail rest tail' else None
          end
        else loop_tail rest tail
      else
        if Chars.endswith suffix tail
        then match tail with
             | [] => loop_tail rest tail
             | _ => None
             end
        else loop_tail rest tail
  end.

Lemma trimmed_app (b t : list ascii) :
  b <> [] -> Chars_facts.trimmed b -> last_ok t = true ->
  Chars_facts.trimmed (b ++ t).
Proof.
  intros Hb [H1 H2] Ht. split.
  - destruct b; [congruence | exact H1].
  - rewrite rev_app_distr. unfold last_ok in Ht.
    destruct (rev t) as [|c r]; [discriminate|].
    cbn. now apply negb_true_iff in Ht.
Qed.

Lemma loop_tail_sound (b : list ascii) (suffixes : list (list ascii))
    (tail t : list ascii) :
  b <> [] -> Chars_facts.trimmed b ->
  Forall (fun suffix => Chars.endswith b suffix = false) suffixes ->
  loop_tail suffixes tail = Some t ->
  fold_left remove_suffix_chars suffixes (b ++ tail) = b ++ t.
Proof.
  intros Hb Htrim Hs. revert tail.
  induction Hs as [|suffix rest Hsuf _ IH]; intros tail.
  - cbn. now intros [= <-].
  - cbn [loop_tail fold_left]. unfold remove_suffix_chars at 2.
    destruct (length suffix <=? length tail)%nat eqn:L.
    + apply Nat.leb_le in L. rewrite (endswith_app_short b tail suffix L).
      destruct (Chars.endswith tail suffix); [|apply IH].
      rewrite (slice_to_neg_app b tail suffix L).
      destruct (firstn (length tail - length suffix) tail) as [|c t'] eqn:F.
      * rewrite app_nil_r.
        rewrite (proj1 (Chars_facts.strip_fixed b) Htrim).
        intros H. rewrite <- (IH [] H). now rewrite app_nil_r.
      * destruct (last_ok (c :: t')) eqn:Lo; [|discriminate].
        rewrite (proj1 (Chars_facts.strip_fixed _)
                   (trimmed_app b (c :: t') Hb Htrim Lo)).
        apply IH.
    + apply Nat.leb_gt in L.
      destruct (Chars.endswith suffix tail) eqn:E.
      * destruct tail as [|c tail]; [|discriminate].
        rewrite app_nil_r, Hsuf. intros H.
        rewrite <- (IH [] H). now rewrite app_nil_r.
      * rewrite (endswith_app_long b tail suffix); [apply IH | lia | exact E].
Qed.

Lemma chars_append (s t : string) :
  Py.chars (s ++ t)%string = Py.chars s ++ Py.chars t.
Proof.
  unfold Py.chars. induction s as [|c s IH]; [reflexivity|].
  simpl. f_equal. exact IH.
Qed.

Lemma normalize_chars_with_suffix (b suffix : list ascii) :
  b <> [] -> clean b ->
  Forall (fun s => Chars.endswith b s = false)
    (map Py.chars suffixes_to_remove) ->
  In suffix (map Py.chars suffixes_to_remove) ->
  normalize_chars (b ++ suffix) = b.
Proof.
  intros Hb Hclean Hs Hin.
  destruct (clean_fixed _ Hclean) as (E1 & E2 & E3 & E4).
  assert (Htrim : Chars_facts.trimmed b) by now apply Chars_facts.strip_fixed.
  assert (Hlow : Chars.lower suffix = suffix
                 /\ last_ok suffix = true
                 /\ loop_tail (map Py.chars suffixes_to_remove) suffix
                    = Some []).
  { unfold suffixes_to_remove in Hin. cbn [map] in Hin.
    repeat (destruct Hin as [<- | Hin];
            [repeat split; vm_compute; reflexivity|]).
    destruct Hin. }
  destruct Hlow as (Hl & Ho & Ht).
  unfold normalize_chars.
  destruct (b ++ suffix) as [|c0 l0] eqn:Eb.
  { apply app_eq_nil in Eb as [-> _]. congruence. }
  rewrite <- Eb. clear Eb c0 l0.
  unfold Chars.lower. rewrite map_app.
  fold (Chars.lower b) (Chars.lower suffix). rewrite E1, Hl.
  rewrite (proj1 (Chars_facts.strip_fixed _)
             (trimmed_app b suffix Hb Htrim Ho)).
  rewrite (loop_tail_sound b _ suffix [] Hb Htrim Hs Ht), app_nil_r.
  now rewrite E3, E4, E2.
Qed.

(** X17: appending one of the listed suffixes to a non-empty normal form
    that ends with none of them gives a name with that normal form again:
    the suffix loop takes away what was appended, " park playground"
    included, and nothing more. *)
Theorem normalize_name_appended_suffix (x suffix : string) :
  normalize_name x <> "" ->
  (forall s, In s suffixes_to_remove ->
             Py.endswith (normalize_name x) s = false) ->
  In suffix suffixes_to_remove ->
  normalize_name (normalize_name x ++ suffix)%string = normalize_name x.
Proof.
  intros Hne Hs Hin. apply chars_inj.
  rewrite chars_normalize_name, chars_append.
  assert (Hclean : clean (Py.chars (normalize_name x)))
    by (rewrite chars_normalize_name; apply normalize_chars_clean).
  apply normalize_chars_with_suffix.
  - intros E. apply Hne. apply chars_inj. now rewrite E.
  - exact Hclean.
  - apply Forall_forall. intros s Hin'.
    apply list_elem_of_In, in_map_iff in Hin' as (s' & <- & Hs').
    now apply Hs.
  - now apply in_map.
Qed.

Lemma normalize_name_appended_suffix_witness :
  normalize_name (normalize_name "Fort Greene" ++ " park playground")%string
  = normalize_name "Fort Greene".
Proof.
  apply (normalize_name_appended_suffix "Fort Greene" " park playground").
  - apply String.eqb_neq. vm_compute. reflexivity.
  - intros s Hs. unfold suffixes_to_remove in Hs.
    repeat (destruct Hs as [<- | Hs]; [vm_compute; reflexivity|]).
    destruct Hs.
  - unfold suffixes_to_remove. cbn. auto.
Defined.
